(** * ImageList: the image classification core of [content.js]

    A shallow embedding of the classification and merging functions of the
    browser extension's page script, with the properties its specification
    states about them.

    Conventions of the embedding.
    - A JavaScript string is a [string]: a sequence of 8-bit characters, read
      as the code units U+0000..U+00FF.
    - An [ArrayBuffer] is a [list byte]; the values a [DataView] reads from it
      are unsigned integers in [Z].
    - Code that can throw runs in the [completion] monad; [tryCatch] is the
      [try { } catch { }] statement, and an [async] function's promise is the
      completion of its body ([Normal]: fulfilled, [Throw]: rejected).
    - A [Set] of strings is a [gset string]. *)

From Stdlib Require Import ZArith QArith Qround Qminmax Ascii String List Lia Bool.
From Stdlib Require Strings.Byte.
From stdpp Require Import base option list gmap strings pretty.

Local Close Scope Q_scope.
Local Open Scope Z_scope.

(** ** Completions: a value, or a thrown error *)

Inductive error : Type :=
  | RangeError
  | TypeError
  | Error (message : string).

Inductive completion (A : Type) : Type :=
  | Normal (a : A)
  | Throw (e : error).

Arguments Normal {A} a.
Arguments Throw {A} e.

#[global] Instance completion_ret : MRet completion := fun A a => Normal a.
#[global] Instance completion_bind : MBind completion := fun A B f m =>
  match m with
  | Normal a => f a
  | Throw e => Throw e
  end.

(** [try { body } catch (error) { handler }] *)
Definition tryCatch {A : Type} (body : completion A) (handler : error -> completion A)
  : completion A :=
  match body with
  | Normal a => Normal a
  | Throw e => handler e
  end.

(** [a && b] on conditions that may throw: [b] is evaluated only when [a] holds. *)
Definition andC (a b : completion bool) : completion bool :=
  x ← a; if x : bool then b else Normal false.

(** [a || b] on conditions that may throw: [b] is evaluated only when [a] fails. *)
Definition orC (a b : completion bool) : completion bool :=
  x ← a; if x : bool then Normal true else b.

Infix "&&&" := andC (at level 40, left associativity).
Infix "|||" := orC (at level 50, left associativity).

(** [if (c) { return t; } k] *)
Notation "'IF' c 'RETURN' t 'ELSE' k" :=
  (mbind (fun b : bool => if b then Normal t else k) c)
  (at level 10, c at level 100, t at level 100, k at level 200,
   format "'[v' 'IF'  c  'RETURN'  t  'ELSE' '/' k ']'").

(** ** Binary Sniffer: [detectImageTypeByMagicNumber] *)

Module Sniffer.

Definition ArrayBuffer := list Byte.byte.

Definition byteLength (buffer : ArrayBuffer) : Z := Z.of_nat (length buffer).

Definition byteAt (buffer : ArrayBuffer) (i : Z) : Z :=
  match buffer !! Z.to_nat i with
  | Some b => Z.of_N (Byte.to_N b)
  | None => 0
  end.

(** [DataView.prototype.getUint8]: a [RangeError] outside the buffer. *)
Definition getUint8 (view : ArrayBuffer) (i : Z) : completion Z :=
  if (0 <=? i) && (i + 1 <=? byteLength view)
  then Normal (byteAt view i)
  else Throw RangeError.

(** [DataView.prototype.getUint16], big-endian as the code calls it. *)
Definition getUint16 (view : ArrayBuffer) (i : Z) : completion Z :=
  if (0 <=? i) && (i + 2 <=? byteLength view)
  then Normal (Z.lor (Z.shiftl (byteAt view i) 8) (byteAt view (i + 1)))
  else Throw RangeError.

(** [DataView.prototype.getUint32], big-endian as the code calls it. *)
Definition getUint32 (view : ArrayBuffer) (i : Z) : completion Z :=
  if (0 <=? i) && (i + 4 <=? byteLength view)
  then Normal (Z.lor (Z.shiftl (byteAt view i) 24)
              (Z.lor (Z.shiftl (byteAt view (i + 1)) 16)
              (Z.lor (Z.shiftl (byteAt view (i + 2)) 8)
                     (byteAt view (i + 3)))))
  else Throw RangeError.

(** [view.getUint8(i) === v] and its 16 and 32 bit variants. *)
Definition u8 (view : ArrayBuffer) (i v : Z) : completion bool :=
  x ← getUint8 view i; Normal (x =? v).
Definition u16 (view : ArrayBuffer) (i v : Z) : completion bool :=
  x ← getUint16 view i; Normal (x =? v).

Definition len_ge (view : ArrayBuffer) (n : Z) : completion bool :=
  Normal (n <=? byteLength view).

(** The [ftyp] box test shared by the AVIF and the HEIC checks: the brands
    are read only when the box type matches, and both are read before either
    is compared. *)
Definition ftypBrand (view : ArrayBuffer) (brandA brandB : Z) : completion bool :=
  if 12 <=? byteLength view then
    m ← getUint32 view 4;
    if m =? 0x66747970 then
      brand1 ← getUint32 view 8;
      brand2 ← getUint32 view 12;
      Normal ((brand1 =? brandA) || (brand1 =? brandB) ||
              (brand2 =? brandA) || (brand2 =? brandB))
    else Normal false
  else Normal false.

(** The JPEG check; the trailer test picks between two branches that both
    return ['jpg']. *)
Definition jpegResult (view : ArrayBuffer) : completion string :=
  IF len_ge view 4 &&& u8 view (byteLength view - 2) 0xFF
                   &&& u8 view (byteLength view - 1) 0xD9
  RETURN "jpg" ELSE
  Normal "jpg".

(** The body of the [try] block, after the empty-buffer test. *)
Definition sniff (view : ArrayBuffer) : completion string :=
  isJpeg ← len_ge view 2 &&& u8 view 0 0xFF &&& u8 view 1 0xD8;
  if isJpeg : bool then jpegResult view else
  IF len_ge view 8 &&& u8 view 0 0x89 &&& u8 view 1 0x50 &&& u8 view 2 0x4E
       &&& u8 view 3 0x47 &&& u8 view 4 0x0D &&& u8 view 5 0x0A
       &&& u8 view 6 0x1A &&& u8 view 7 0x0A
  RETURN "png" ELSE
  IF len_ge view 6 &&&
       ((u8 view 0 0x47 &&& u8 view 1 0x49 &&& u8 view 2 0x46) |||
        (u8 view 0 0x47 &&& u8 view 1 0x49 &&& u8 view 2 0x66))
  RETURN "gif" ELSE
  IF len_ge view 2 &&& u8 view 0 0x42 &&& u8 view 1 0x4D
  RETURN "bmp" ELSE
  IF len_ge view 12 &&& u8 view 0 0x52 &&& u8 view 1 0x49 &&& u8 view 2 0x46
       &&& u8 view 3 0x46 &&& u8 view 8 0x57 &&& u8 view 9 0x45
       &&& u8 view 10 0x42 &&& u8 view 11 0x50
  RETURN "webp" ELSE
  IF ftypBrand view 0x61766966 0x61766973
  RETURN "avif" ELSE
  IF len_ge view 6 &&& u16 view 0 0 &&& u16 view 2 1
  RETURN "ico" ELSE
  IF len_ge view 4 &&&
       ((u16 view 0 0x4D4D &&& u16 view 2 42) |||
        (u16 view 0 0x4949 &&& u16 view 2 42))
  RETURN "tiff" ELSE
  IF ftypBrand view 0x68656963 0x68656966
  RETURN "heic" ELSE
  Normal "unknown".

Definition detectImageTypeByMagicNumber (buffer : ArrayBuffer) : completion string :=
  tryCatch
    (if byteLength buffer =? 0 then Normal "unknown" else sniff buffer)
    (fun _ => Normal "unknown").

(** The eight bytes every PNG file starts with. *)
Definition pngSignature : list Byte.byte :=
  [Byte.x89; Byte.x50; Byte.x4e; Byte.x47; Byte.x0d; Byte.x0a; Byte.x1a; Byte.x0a].

(** The format tags the sniffer can answer with. *)
Definition formatTags : list string :=
  ["jpg"; "png"; "gif"; "bmp"; "webp"; "avif"; "ico"; "tiff"; "heic"].

(** The number of leading bytes a format's check needs: its [byteLength]
    guard, and for the two [ftyp] formats the end of the second brand word
    it reads. *)
Definition minSignatureLength (tag : string) : Z :=
  if String.eqb tag "jpg" then 2
  else if String.eqb tag "png" then 8
  else if String.eqb tag "gif" then 6
  else if String.eqb tag "bmp" then 2
  else if String.eqb tag "webp" then 12
  else if String.eqb tag "avif" then 16
  else if String.eqb tag "ico" then 6
  else if String.eqb tag "tiff" then 4
  else if String.eqb tag "heic" then 16
  else 0.

End Sniffer.


(** ** JavaScript string methods used by the page script *)

Module JsString.

Definition charCode (c : ascii) : N := N_of_ascii c.

(** [String.prototype.toLowerCase] on one code unit below U+0100: the basic
    Latin capitals and the Latin-1 capitals (U+00D7 is the multiplication
    sign). *)
Definition toLowerChar (c : ascii) : ascii :=
  let n := charCode c in
  if ((65 <=? n) && (n <=? 90) ||
      (192 <=? n) && (n <=? 222) && negb (n =? 215))%N
  then ascii_of_N (n + 32)
  else c.

Fixpoint toLowerCase (s : string) : string :=
  match s with
  | EmptyString => EmptyString
  | String c r => String (toLowerChar c) (toLowerCase r)
  end.

(** [s.startsWith(p)] *)
Fixpoint startsWith (p s : string) : bool :=
  match p, s with
  | EmptyString, _ => true
  | String a p', String b s' => Ascii.eqb a b && startsWith p' s'
  | String _ _, EmptyString => false
  end.

(** [s.includes(needle)] *)
Fixpoint includes (needle s : string) : bool :=
  startsWith needle s ||
  match s with
  | EmptyString => false
  | String _ r => includes needle r
  end.

(** [s.split(sep)] for a separator of one character. *)
Fixpoint split (sep : ascii) (s : string) : list string :=
  match s with
  | EmptyString => [EmptyString]
  | String c r =>
      if Ascii.eqb c sep then EmptyString :: split sep r
      else match split sep r with
           | h :: t => String c h :: t
           | [] => [String c EmptyString]
           end
  end.

(** [l.join(sep)] *)
Fixpoint join (sep : string) (l : list string) : string :=
  match l with
  | [] => EmptyString
  | [x] => x
  | x :: rest => x +:+ sep +:+ join sep rest
  end.

(** The character [c] does not occur in [s]. *)
Definition free (c : ascii) (s : string) : Prop :=
  includes (String c EmptyString) s = false.

(** [l.includes(x)] on an array of strings. *)
Definition arrayIncludes (l : list string) (x : string) : bool :=
  existsb (String.eqb x) l.


(** The rest of [s] after the prefix [p], when [s] starts with [p]. *)
Fixpoint dropPrefix (p s : string) : option string :=
  match p, s with
  | EmptyString, _ => Some s
  | String a p', String b s' => if Ascii.eqb a b then dropPrefix p' s' else None
  | String _ _, EmptyString => None
  end.

(** A line terminator, which [.] of a regular expression does not match. *)
Definition isLineTerminator (c : ascii) : bool :=
  ((charCode c =? 10) || (charCode c =? 13))%N.

(** White space, which [\s] of a regular expression matches. *)
Definition isWhiteSpace (c : ascii) : bool :=
  let n := charCode c in
  ((9 <=? n) && (n <=? 13) || (n =? 32) || (n =? 160))%N.

(** A character of the class [[\d.]]. *)
Definition isDigitOrDot (c : ascii) : bool :=
  let n := charCode c in
  ((48 <=? n) && (n <=? 57) || (n =? 46))%N.

End JsString.

(** ** URL Heuristic Classifier: [getImageType] *)

Module Classifier.
Import JsString.

(** The lazy group [(.*?)] followed by [;]: the characters up to the first
    semicolon, none of them a line terminator. *)
Fixpoint lazyUntilSemicolon (s : string) : option string :=
  match s with
  | EmptyString => None
  | String c r =>
      if Ascii.eqb c ";" then Some EmptyString
      else if isLineTerminator c then None
      else String c <$> lazyUntilSemicolon r
  end.

(** [url.match(/data:image\/(.*?);/)]: the first group of the leftmost match. *)
Fixpoint matchDataImage (url : string) : option string :=
  match url with
  | EmptyString => None
  | String _ r =>
      match dropPrefix "data:image/" url ≫= lazyUntilSemicolon with
      | Some subtype => Some subtype
      | None => matchDataImage r
      end
  end.

(** [cleanUrl.match(/\.([^.]+)$/)]: the first group of the leftmost match, a
    non-empty run without dots that ends the string and follows a dot. *)
Fixpoint matchExtension (cleanUrl : string) : option string :=
  match cleanUrl with
  | EmptyString => None
  | String c r =>
      if Ascii.eqb c "." && negb (String.eqb r EmptyString) && negb (includes "." r)
      then Some r
      else matchExtension r
  end.

(** The keyword scan of the lowercased URL, run when no extension was found. *)
Definition keywordScan (urlLower : string) : option string :=
  if includes "jpg" urlLower || includes "jpeg" urlLower then Some "jpg"
  else if includes "png" urlLower then Some "png"
  else if includes "svg" urlLower then Some "svg"
  else if includes "webp" urlLower then Some "webp"
  else if includes "gif" urlLower then Some "gif"
  else if includes "bmp" urlLower then Some "bmp"
  else if includes "ico" urlLower then Some "ico"
  else if includes "tiff" urlLower || includes "tif" urlLower then Some "tiff"
  else if includes "apng" urlLower then Some "apng"
  else if includes "avif" urlLower then Some "avif"
  else None.

Definition supportedExtensions : list string :=
  ["jpg"; "png"; "svg"; "webp"; "gif"; "bmp"; "ico"; "tiff"; "tif"; "apng"; "avif"].

(** The branch taken when an extension was found. *)
Definition extensionResult (extension : string) : option string :=
  let extension := toLowerCase extension in
  if String.eqb extension "jpeg" then Some "jpg"
  else if arrayIncludes supportedExtensions extension then Some extension
  else None.

(** The [format=] and [type=] hints of the query string; [urlParams] is
    [url.split('?')[1]], undefined or empty when there is no query. *)
Definition paramHints (urlParams : option string) : option string :=
  match urlParams with
  | None => None
  | Some EmptyString => None
  | Some urlParams =>
      let paramsLower := toLowerCase urlParams in
      if includes "format=png" paramsLower || includes "type=png" paramsLower
      then Some "png"
      else if includes "format=jpg" paramsLower || includes "type=jpg" paramsLower ||
              includes "format=jpeg" paramsLower || includes "type=jpeg" paramsLower
      then Some "jpg"
      else if includes "format=webp" paramsLower || includes "type=webp" paramsLower
      then Some "webp"
      else if includes "format=gif" paramsLower || includes "type=gif" paramsLower
      then Some "gif"
      else if includes "format=avif" paramsLower || includes "type=avif" paramsLower
      then Some "avif"
      else if includes "format=heic" paramsLower || includes "type=heic" paramsLower
      then Some "heic"
      else if includes "format=heif" paramsLower || includes "type=heif" paramsLower
      then Some "heic"
      else None
  end.

(** The per-format directory segments and, last, the MIME tokens. *)
Definition pathAndMimeHints (urlLower : string) : string :=
  if includes "/png/" urlLower || includes "/images/png/" urlLower ||
     includes "/img/png/" urlLower
  then "png"
  else if includes "/jpg/" urlLower || includes "/images/jpg/" urlLower ||
          includes "/img/jpg/" urlLower || includes "/jpeg/" urlLower ||
          includes "/images/jpeg/" urlLower || includes "/img/jpeg/" urlLower
  then "jpg"
  else if includes "image/jpeg" urlLower || includes "image/jpg" urlLower then "jpg"
  else if includes "image/png" urlLower then "png"
  else if includes "image/svg" urlLower then "svg"
  else if includes "image/webp" urlLower then "webp"
  else if includes "image/gif" urlLower then "gif"
  else if includes "image/bmp" urlLower then "bmp"
  else if includes "image/avif" urlLower then "avif"
  else if includes "image/tiff" urlLower then "tiff"
  else if includes "image/ico" urlLower then "ico"
  else "unknown".

(** [url.split('?')[0].split('#')[0]] *)
Definition cleanUrlOf (url : string) : string :=
  default EmptyString (split "#" (default EmptyString (split "?" url !! 0%nat)) !! 0%nat).

Definition getImageType (url : string) : string :=
  if startsWith "data:image/" url then
    match matchDataImage url with
    | Some subtype => subtype
    | None => "base64"
    end
  else
    let cleanUrl := cleanUrlOf url in
    let extension :=
      match matchExtension cleanUrl with
      | Some e => toLowerCase e
      | None => EmptyString
      end in
    let urlLower := toLowerCase url in
    let early :=
      if String.eqb extension EmptyString then keywordScan urlLower
      else extensionResult extension in
    match early with
    | Some tag => tag
    | None =>
        match paramHints (split "?" url !! 1%nat) with
        | Some tag => tag
        | None => pathAndMimeHints urlLower
        end
    end.



(** The keyword priority of the specification's wording: [png] first. *)
Definition specKeywordPriority : list (list string * string) :=
  [ (["png"], "png"); (["jpg"; "jpeg"], "jpg"); (["svg"], "svg");
    (["webp"], "webp"); (["gif"], "gif"); (["bmp"], "bmp"); (["ico"], "ico");
    (["tiff"; "tif"], "tiff"); (["apng"], "apng"); (["avif"], "avif") ].

(** The keyword priority the code applies: [jpg]/[jpeg] first. *)
Definition keywordPriority : list (list string * string) :=
  [ (["jpg"; "jpeg"], "jpg"); (["png"], "png"); (["svg"], "svg");
    (["webp"], "webp"); (["gif"], "gif"); (["bmp"], "bmp"); (["ico"], "ico");
    (["tiff"; "tif"], "tiff"); (["apng"], "apng"); (["avif"], "avif") ].

(** The tag of the first entry of a priority table with a keyword present in
    [text]. *)
Definition firstHit (table : list (list string * string)) (text : string) : option string :=
  snd <$> List.find (fun entry => existsb (fun k => includes k text) (fst entry)) table.

End Classifier.

(** ** Network Resolution Strategy: [getImageTypeByFetch] *)

Module Network.
Import JsString Sniffer.

Inductive RequestMode := ModeCors | ModeNoCors.
Inductive CacheMode := CacheNoCache | CacheDefault.

(** The options of one [fetch] call; the abort signal is part of the host's
    answer (an aborted request rejects). *)
Record FetchConfig := {
  method : string;
  mode : RequestMode;
  cache : CacheMode
}.

(** What the code reads of a [Response]: [ok], whether [type] is ['opaque'],
    the [Content-Type] header ([None] for [null]) and the outcome of
    [arrayBuffer()]. *)
Record Response := {
  ok : bool;
  isOpaque : bool;
  contentType : option string;
  arrayBuffer : completion ArrayBuffer
}.

(** The host's [fetch]: a response, or a rejection (network error, blocked
    request, timeout). *)
Definition Fetch := string -> FetchConfig -> completion Response.

Definition fetchConfigs : list FetchConfig :=
  [ {| method := "GET"; mode := ModeCors; cache := CacheNoCache |};
    {| method := "GET"; mode := ModeNoCors; cache := CacheDefault |} ].

(** The [for] loop over the configurations: [response] keeps the last response
    received; the loop stops at one that is [ok] or opaque. *)
Fixpoint tryConfigs (fetch : Fetch) (url : string) (configs : list FetchConfig)
    (response : option Response) : option Response :=
  match configs with
  | [] => response
  | config :: rest =>
      match fetch url config with
      | Normal r =>
          if ok r || isOpaque r then Some r
          else tryConfigs fetch url rest (Some r)
      | Throw _ => tryConfigs fetch url rest response
      end
  end.

(** The greedy group of any characters: those up to the first line
    terminator. *)
Fixpoint greedyLine (s : string) : string :=
  match s with
  | EmptyString => EmptyString
  | String c r => if isLineTerminator c then EmptyString else String c (greedyLine r)
  end.

(** [contentType.match] on the pattern [image/] followed by that group: the
    group of the leftmost match. *)
Fixpoint matchImageSubtype (contentType : string) : option string :=
  match dropPrefix "image/" contentType with
  | Some rest => Some (greedyLine rest)
  | None =>
      match contentType with
      | EmptyString => None
      | String _ r => matchImageSubtype r
      end
  end.

(** [s.replace(pattern, replacement)] with a string pattern: the first
    occurrence only. *)
Fixpoint replaceFirst (pattern replacement s : string) : string :=
  match dropPrefix pattern s with
  | Some rest => replacement +:+ rest
  | None =>
      match s with
      | EmptyString => EmptyString
      | String c r => String c (replaceFirst pattern replacement r)
      end
  end.

Definition mimeSubtypes : list string :=
  ["jpg"; "png"; "gif"; "webp"; "bmp"; "svg+xml"; "avif"; "tiff"; "ico"].

(** The opaque-response branch: a type read from the header, or the error
    thrown when the header gives none. *)
Definition opaqueResult (response : Response) : completion string :=
  let fallThrough := Throw (Error "no response body") in
  match contentType response with
  | Some contentType =>
      if negb (String.eqb contentType EmptyString) && startsWith "image/" contentType then
        match matchImageSubtype contentType with
        | Some typeMatch =>
            let type := toLowerCase typeMatch in
            if String.eqb type "jpeg" then Normal "jpg"
            else if arrayIncludes mimeSubtypes type
            then Normal (replaceFirst "+xml" EmptyString type)
            else fallThrough
        | None => fallThrough
        end
      else fallThrough
  | None => fallThrough
  end.

(** The [catch] block: the last attempt, on the lowercased URL. *)
Definition urlMimeScan (urlLower : string) : string :=
  if includes "image/jpeg" urlLower || includes "image/jpg" urlLower then "jpg"
  else if includes "image/png" urlLower then "png"
  else if includes "image/gif" urlLower then "gif"
  else if includes "image/webp" urlLower then "webp"
  else if includes "image/bmp" urlLower then "bmp"
  else if includes "image/svg" urlLower then "svg"
  else if includes "image/avif" urlLower then "avif"
  else if includes "image/tiff" urlLower then "tiff"
  else if includes "image/ico" urlLower then "ico"
  else "unknown".

(** The promise of the [async] function: [Normal] when it fulfils, [Throw]
    when it rejects. *)
Definition getImageTypeByFetch (fetch : Fetch) (url : string) : completion string :=
  tryCatch
    (match tryConfigs fetch url fetchConfigs None with
     | None => Throw (Error "all fetch configurations failed")
     | Some response =>
         if isOpaque response then opaqueResult response
         else
           buffer ← arrayBuffer response;
           detectImageTypeByMagicNumber buffer
     end)
    (fun _ => Normal (urlMimeScan (toLowerCase url))).

(** The [image/<subtype>] tokens of the specification's wording, in order. *)
Definition mimePriority : list (list string * string) :=
  [ (["image/jpeg"; "image/jpg"], "jpg"); (["image/png"], "png");
    (["image/gif"], "gif"); (["image/webp"], "webp"); (["image/bmp"], "bmp");
    (["image/svg"], "svg"); (["image/avif"], "avif"); (["image/tiff"], "tiff");
    (["image/ico"], "ico") ].

(** The attempts on [url] leave nothing to read: no response at all, an
    opaque response whose header names no type, or a body that cannot be
    read. *)
Definition nothingToRead (fetch : Fetch) (url : string) : Prop :=
  match tryConfigs fetch url fetchConfigs None with
  | None => True
  | Some response =>
      if isOpaque response then ∃ e, opaqueResult response = Throw e
      else ∃ e, arrayBuffer response = Throw e
  end.

(** Every attempt on [url] fails: each [fetch] call rejects. *)
Definition allAttemptsFail (fetch : Fetch) (url : string) : Prop :=
  ∀ config, config ∈ fetchConfigs → ∃ e, fetch url config = Throw e.

End Network.

(** ** SVG Dimension Resolver: [parseSvgDimensions] *)

Module Svg.
Import JsString.

(** A JavaScript number: every finite binary64 value is a rational, so the
    comparisons, [Math.min], [Math.max], [Math.round] and [Math.ceil] below are
    exact. Operations that round ([parseFloat], [+]) belong to the [Host]. *)
Inductive number :=
  | NaN
  | PosInf
  | NegInf
  | Fin (q : Q).

(** The value of the variables [width] and [height]: [null], a string captured
    by a regular expression, or a number. *)
Inductive value :=
  | VNull
  | VStr (s : string)
  | VNum (n : number).

(** A property of the object [fast-xml-parser] builds with
    [parseAttributeValue: true]: an attribute as a string, or parsed to a
    number or a boolean, or the object of a child element of that name. *)
Inductive fxpValue :=
  | FStr (s : string)
  | FNum (n : number)
  | FBool (b : bool)
  | FObject.

(** The root element of the object [fast-xml-parser] builds; [None] is an
    attribute that is not there ([undefined]). *)
Record FxpElement := {
  fxp_width : option fxpValue;
  fxp_height : option fxpValue;
  fxp_viewBox : option fxpValue;
  fxp_style : option fxpValue
}.

(** What the code reads of the root element [DOMParser] finds:
    [getAttribute] ([None] for [null]), the inline [style.width] and
    [style.height], and the bounding box of the first drawable child: [None]
    when there is no such child or it has no [getBBox], an error when
    [getBBox] throws. *)
Record DomElement := {
  dom_width : option string;
  dom_height : option string;
  dom_viewBox : option string;
  dom_style : option string;
  dom_cssWidth : string;
  dom_cssHeight : string;
  dom_bbox : completion (option (number * number))
}.

(** The built-ins and libraries of the page the function runs in. [fxp] is
    [None] when the global [fxp] is not defined; each parser answers with the
    [svg] root of the document, [None] when there is none. *)
Record Host := {
  decodeURIComponent : string -> completion string;
  parseFloat : string -> number;
  numberAdd : number -> number -> number;
  fxp : option (string -> completion (option FxpElement));
  domParser : string -> completion (option DomElement)
}.

Record Dimensions := { dim_width : Z; dim_height : Z }.

Definition zeroDimensions : Dimensions := {| dim_width := 0; dim_height := 0 |}.

(** [content.replace(/`/g, '')] *)
Fixpoint removeBackticks (s : string) : string :=
  match s with
  | EmptyString => EmptyString
  | String c r =>
      if Ascii.eqb c "`" then removeBackticks r else String c (removeBackticks r)
  end.

(** Removal of every comment, from an opening mark to the first closing mark
    after it. [inComment] holds between the two marks, and [skip] counts the
    characters of a mark still to be dropped. *)
Fixpoint stripCommentsFrom (inComment : bool) (skip : nat) (s : string) : string :=
  match s with
  | EmptyString => EmptyString
  | String c r =>
      match skip with
      | S k => stripCommentsFrom inComment k r
      | O =>
          if inComment then
            if startsWith "-->" s then stripCommentsFrom false 2 r
            else stripCommentsFrom true 0 r
          else
            match dropPrefix "<!--" s with
            | Some body =>
                if includes "-->" body then stripCommentsFrom true 3 r
                else String c (stripCommentsFrom false 0 r)
            | None => String c (stripCommentsFrom false 0 r)
            end
      end
  end.

Definition stripComments (s : string) : string := stripCommentsFrom false 0 s.

(** The cleaned content handed to the parsers. *)
Definition cleanContent (host : Host) (svgContent : string) : string :=
  let decoded :=
    match decodeURIComponent host svgContent with
    | Normal d => d
    | Throw _ => svgContent
    end in
  stripComments (removeBackticks decoded).

Fixpoint takeDigitsOrDots (s : string) : string :=
  match s with
  | EmptyString => EmptyString
  | String c r => if isDigitOrDot c then String c (takeDigitsOrDots r) else EmptyString
  end.

(** [s.match(/([\d.]+)/)]: the first run of digits and dots. *)
Fixpoint matchNumeric (s : string) : option string :=
  match s with
  | EmptyString => None
  | String c r => if isDigitOrDot c then Some (takeDigitsOrDots s) else matchNumeric r
  end.

Fixpoint skipWhiteSpace (s : string) : string :=
  match s with
  | EmptyString => EmptyString
  | String c r => if isWhiteSpace c then skipWhiteSpace r else s
  end.

(** [style.match] on a property name, white space and a run of digits and
    dots: the run of the leftmost match. The optional unit that follows does
    not change the run. *)
Fixpoint matchStyleLength (property style : string) : option string :=
  match style with
  | EmptyString => None
  | String _ r =>
      match dropPrefix property style with
      | Some rest =>
          match takeDigitsOrDots (skipWhiteSpace rest) with
          | EmptyString => matchStyleLength property r
          | run => Some run
          end
      | None => matchStyleLength property r
      end
  end.

(** [viewBox.split(/\s+/)]: the pieces between the runs of white space. [piece]
    is the piece being read and [inGap] holds inside a run of white space. *)
Fixpoint splitWhiteSpaceFrom (piece : string) (inGap : bool) (s : string) : list string :=
  match s with
  | EmptyString => [piece]
  | String c r =>
      if isWhiteSpace c then
        if inGap then splitWhiteSpaceFrom piece true r
        else piece :: splitWhiteSpaceFrom EmptyString true r
      else splitWhiteSpaceFrom (piece +:+ String c EmptyString) false r
  end.

Definition splitWhiteSpace (s : string) : list string :=
  splitWhiteSpaceFrom EmptyString false s.

(** [viewBox.split(/\s+/).filter(part => part)] *)
Definition viewBoxParts (viewBox : string) : list string :=
  List.filter (fun part => negb (String.eqb part EmptyString)) (splitWhiteSpace viewBox).

Definition numberTruthy (n : number) : bool :=
  match n with
  | NaN => false
  | Fin q => negb (Qeq_bool q 0%Q)
  | PosInf | NegInf => true
  end.

(** [!v] *)
Definition isFalsy (v : value) : bool :=
  match v with
  | VNull => true
  | VStr s => String.eqb s EmptyString
  | VNum n => negb (numberTruthy n)
  end.

Definition fxpTruthy (v : option fxpValue) : bool :=
  match v with
  | None => false
  | Some (FStr s) => negb (String.eqb s EmptyString)
  | Some (FNum n) => numberTruthy n
  | Some (FBool b) => b
  | Some FObject => true
  end.

(** [n > 0] *)
Definition isPositive (n : number) : bool :=
  match n with
  | Fin q => negb (Qle_bool q 0%Q)
  | PosInf => true
  | NaN | NegInf => false
  end.

(** [v ? parseFloat(v) : 0]; [parseFloat] of a number is that number. *)
Definition toNumber (host : Host) (v : value) : number :=
  if isFalsy v then Fin 0%Q
  else match v with
       | VStr s => parseFloat host s
       | VNum n => n
       | VNull => Fin 0%Q
       end.

(** [Math.round(Math.min(Math.max(n, 1), 50000))] for a number [n > 0]. *)
Definition clampRound (n : number) : Z :=
  match n with
  | Fin q => Qfloor (Qmin (Qmax q 1%Q) 50000%Q + (1 # 2))%Q
  | PosInf => 50000
  | NaN | NegInf => 0
  end.

(** [Math.ceil(n)] *)
Definition mathCeil (n : number) : number :=
  match n with
  | Fin q => Fin (inject_Z (Qceiling q))
  | other => other
  end.

(** The last step of both branches: the numbers are checked and clamped;
    [None] when the branch returns nothing. *)
Definition finish (host : Host) (width height : value) : option Dimensions :=
  let widthNum := toNumber host width in
  let heightNum := toNumber host height in
  if isPositive widthNum && isPositive heightNum
  then Some {| dim_width := clampRound widthNum; dim_height := clampRound heightNum |}
  else None.

(** [if (!width) width = vbWidth; if (!height) height = vbHeight;] on the
    third and fourth parts of a view box of at least four parts. *)
Definition fromViewBox (host : Host) (viewBox : string) (width height : value)
  : value * value :=
  let parts := viewBoxParts viewBox in
  if (4 <=? length parts)%nat then
    let vbWidth := parseFloat host (default EmptyString (parts !! 2%nat)) in
    let vbHeight := parseFloat host (default EmptyString (parts !! 3%nat)) in
    (if isFalsy width then VNum vbWidth else width,
     if isFalsy height then VNum vbHeight else height)
  else (width, height).

(** The [width:] and [height:] declarations of a [style] attribute. *)
Definition fromStyle (style : string) (width height : value) : value * value :=
  let widthMatch := matchStyleLength "width:" style in
  let heightMatch := matchStyleLength "height:" style in
  (match widthMatch with
   | Some w => if isFalsy width then VStr w else width
   | None => width
   end,
   match heightMatch with
   | Some h => if isFalsy height then VStr h else height
   | None => height
   end).

(** [if (v) { v.match(...) }] and [if (v) { v.split(...) }] on a property of
    the parsed object: a [TypeError] when a truthy property is not a string. *)
Definition fxpString (v : option fxpValue) : completion (option string) :=
  if fxpTruthy v then
    match v with
    | Some (FStr s) => Normal (Some s)
    | _ => Throw TypeError
    end
  else Normal None.

Definition numericOf (attribute : option string) : value :=
  match attribute ≫= matchNumeric with
  | Some run => VStr run
  | None => VNull
  end.

(** The branch on the object built by [fast-xml-parser]. *)
Definition fxpBranch (host : Host) (svgElement : FxpElement) : completion (option Dimensions) :=
  widthAttr ← fxpString (fxp_width svgElement);
  let width := numericOf widthAttr in
  heightAttr ← fxpString (fxp_height svgElement);
  let height := numericOf heightAttr in
  '(width, height) ←
    (if isFalsy width || isFalsy height then
       viewBox ← fxpString (fxp_viewBox svgElement);
       Normal (match viewBox with
               | Some viewBox => fromViewBox host viewBox width height
               | None => (width, height)
               end)
     else Normal (width, height));
  '(width, height) ←
    (if isFalsy width || isFalsy height then
       style ← fxpString (fxp_style svgElement);
       Normal (match style with
               | Some style => fromStyle style width height
               | None => (width, height)
               end)
     else Normal (width, height));
  Normal (finish host width height).

Definition truthyString (s : option string) : option string :=
  match s with
  | Some EmptyString => None
  | other => other
  end.

(** Method 4, the inline [style.width] and [style.height]. *)
Definition fromCss (svgElement : DomElement) (width height : value) : value * value :=
  (if negb (String.eqb (dom_cssWidth svgElement) EmptyString) && isFalsy width then
     match matchNumeric (dom_cssWidth svgElement) with
     | Some run => VStr run
     | None => width
     end
   else width,
   if negb (String.eqb (dom_cssHeight svgElement) EmptyString) && isFalsy height then
     match matchNumeric (dom_cssHeight svgElement) with
     | Some run => VStr run
     | None => height
     end
   else height).

(** Method 5, the bounding box of the first drawable child, padded by 10; an
    error of [getBBox] is caught and ignored. *)
Definition fromBBox (host : Host) (svgElement : DomElement) (width height : value)
  : value * value :=
  match dom_bbox svgElement with
  | Normal (Some (bw, bh)) =>
      if isPositive bw && isPositive bh then
        (if isFalsy width then VNum (mathCeil (numberAdd host bw (Fin 10%Q))) else width,
         if isFalsy height then VNum (mathCeil (numberAdd host bh (Fin 10%Q))) else height)
      else (width, height)
  | Normal None | Throw _ => (width, height)
  end.

(** The branch on the element found by [DOMParser]. *)
Definition domBranch (host : Host) (svgElement : DomElement) : option Dimensions :=
  let width := numericOf (truthyString (dom_width svgElement)) in
  let height := numericOf (truthyString (dom_height svgElement)) in
  let '(width, height) :=
    if isFalsy width || isFalsy height then
      match truthyString (dom_viewBox svgElement) with
      | Some viewBox => fromViewBox host viewBox width height
      | None => (width, height)
      end
    else (width, height) in
  let '(width, height) :=
    if isFalsy width || isFalsy height then
      match truthyString (dom_style svgElement) with
      | Some style => fromStyle style width height
      | None => (width, height)
      end
    else (width, height) in
  let '(width, height) :=
    if isFalsy width || isFalsy height then fromCss svgElement width height
    else (width, height) in
  let '(width, height) :=
    if isFalsy width || isFalsy height then fromBBox host svgElement width height
    else (width, height) in
  finish host width height.

(** The first attempt: nothing when [fxp] is not defined, when its parser
    throws, when the document has no [svg] root, or when the branch finds no
    positive size. *)
Definition fxpAttempt (host : Host) (cleanedContent : string) : option Dimensions :=
  match fxp host with
  | Some parse =>
      match tryCatch
              (svgElement ← parse cleanedContent;
               match svgElement with
               | Some svgElement => fxpBranch host svgElement
               | None => Normal None
               end)
              (fun _ => Normal None) with
      | Normal result => result
      | Throw _ => None
      end
  | None => None
  end.

Definition parseSvgDimensions (host : Host) (svgContent : string) : Dimensions :=
  let cleanedContent := cleanContent host svgContent in
  match fxpAttempt host cleanedContent with
  | Some dimensions => dimensions
  | None =>
      match domParser host cleanedContent with
      | Normal (Some svgElement) =>
          default zeroDimensions (domBranch host svgElement)
      | Normal None | Throw _ => zeroDimensions
      end
  end.




(** *** A host for the examples *)

Definition isDigit (c : ascii) : bool :=
  ((48 <=? charCode c) && (charCode c <=? 57))%N.

Fixpoint readDigits (acc : Z) (s : string) : Z * string :=
  match s with
  | EmptyString => (acc, EmptyString)
  | String c r =>
      if isDigit c then readDigits (acc * 10 + (Z.of_N (charCode c) - 48)) r
      else (acc, s)
  end.

(** [parseFloat] on the strings that start, after white space, with an
    unsigned integer literal below 2^53 that no fraction and no exponent
    follows. On other strings this host answers [NaN]; the examples do not use
    it there. *)
Definition integerParseFloat (s : string) : number :=
  match skipWhiteSpace s with
  | EmptyString => NaN
  | String c _ as t =>
      if isDigit c then
        match readDigits 0 t with
        | (v, EmptyString) => Fin (inject_Z v)
        | (v, String d _) =>
            if Ascii.eqb d "." || Ascii.eqb d "e" || Ascii.eqb d "E" then NaN
            else Fin (inject_Z v)
        end
      else NaN
  end.

Definition exactAdd (a b : number) : number :=
  match a, b with
  | Fin x, Fin y => Fin (x + y)%Q
  | NaN, _ | _, NaN => NaN
  | PosInf, NegInf | NegInf, PosInf => NaN
  | PosInf, _ | _, PosInf => PosInf
  | NegInf, _ | _, NegInf => NegInf
  end.

(** A root with a [viewBox] attribute only, parsed from a document that is not
    rendered (its bounding boxes are empty). *)
Definition viewBoxRoot (viewBox : string) : DomElement :=
  {| dom_width := None; dom_height := None; dom_viewBox := Some viewBox;
     dom_style := None; dom_cssWidth := EmptyString; dom_cssHeight := EmptyString;
     dom_bbox := Normal (Some (Fin 0%Q, Fin 0%Q)) |}.

(** A page without [fxp] whose [DOMParser] finds the root [root]; the content
    it is used on has no percent escape, which [decodeURIComponent] leaves
    as it is. *)
Definition exampleHost (root : DomElement) : Host :=
  {| decodeURIComponent := fun s => Normal s;
     parseFloat := integerParseFloat;
     numberAdd := exactAdd;
     fxp := None;
     domParser := fun _ => Normal (Some root) |}.

(** The double quote. *)
Definition dq : string := String (ascii_of_N 34) EmptyString.

(** The markup of the specification's scenario. *)
Definition scenarioMarkup : string :=
  "<svg viewBox=" +:+ dq +:+ "0 0 120 80" +:+ dq +:+ "><rect/></svg>".

End Svg.

(** ** The record of one image *)

(** The object pushed to [images]; [width] and [height] are integers, 0 when
    the size is not known. *)
Record ImageRecord := {
  src : string;
  alt : string;
  width : Z;
  height : Z;
  type : string;
  elementType : string
}.

Definition setSrc (s : string) (image : ImageRecord) : ImageRecord :=
  {| src := s; alt := alt image; width := width image; height := height image;
     type := type image; elementType := elementType image |}.

Definition setType (t : string) (image : ImageRecord) : ImageRecord :=
  {| src := src image; alt := alt image; width := width image; height := height image;
     type := t; elementType := elementType image |}.

Definition setSize (w h : Z) (image : ImageRecord) : ImageRecord :=
  {| src := src image; alt := alt image; width := w; height := h;
     type := type image; elementType := elementType image |}.

(** ** Result Coordinator: [getImageInfoCoordinated] *)

Module Coordinator.
Import Svg.

(** One entry of the array [Promise.allSettled] resolves to. *)
Inductive settled (A : Type) :=
  | Fulfilled (value : A)
  | Rejected (reason : error).

Arguments Fulfilled {A} value.
Arguments Rejected {A} reason.

Definition settle {A : Type} (promise : completion A) : settled A :=
  match promise with
  | Normal a => Fulfilled a
  | Throw e => Rejected e
  end.

(** The merge. [typeByFetch] is the promise of [getImageTypeByFetch(url)] and
    [svgDimensions] the promise of [getSvgDimensionsFromUrl(url)], which is
    awaited only for a record of type ['svg']. *)
Definition getImageInfoCoordinated (typeByFetch : completion string)
    (svgDimensions : completion Dimensions) (initialImage : ImageRecord) : ImageRecord :=
  let detectedType := settle typeByFetch in
  let dimensions :=
    settle (if String.eqb (type initialImage) "svg" then svgDimensions
            else Normal zeroDimensions) in
  let updatedImage := initialImage in
  let updatedImage :=
    match detectedType with
    | Fulfilled value =>
        if negb (String.eqb value "unknown") then setType value updatedImage
        else updatedImage
    | Rejected _ => updatedImage
    end in
  let updatedImage :=
    match dimensions with
    | Fulfilled value =>
        if (0 <? dim_width value) && (0 <? dim_height value)
        then setSize (dim_width value) (dim_height value) updatedImage
        else updatedImage
    | Rejected _ => updatedImage
    end in
  updatedImage.

End Coordinator.

(** ** The final pass of [extractImages]: size filter, normalization, dedup *)

Module Extraction.
Import JsString.

Definition minWidth : Z := 10.
Definition minHeight : Z := 10.

(** The condition of the size filter: the record is kept when it holds. *)
Definition sizeFilter (image : ImageRecord) : bool :=
  ((minWidth <=? width image) || (minHeight <=? height image)) ||
  ((width image =? 0) && (height image =? 0)).

Definition trackingParameters : list string :=
  ["utm_source"; "utm_medium"; "utm_campaign"; "utm_term"; "utm_content";
   "gclid"; "fbclid"; "msclkid"; "mc_eid"; "cid"; "pid"].

(** The callback of [filter]: a parameter is kept when its key is not a
    tracking parameter. *)
Definition keepParam (param : string) : bool :=
  let key := toLowerCase (default EmptyString (split "=" param !! 0%nat)) in
  negb (arrayIncludes trackingParameters key).

(** Normalization of a source: the tracking parameters are removed from the
    query string. *)
Definition normalizeUrl (normalizedUrl : string) : string :=
  if includes "?" normalizedUrl then
    let urlParts := split "?" normalizedUrl in
    match urlParts !! 0%nat, urlParts !! 1%nat with
    | Some baseUrl, Some params =>
        let paramPairs := List.filter keepParam (split "&" params) in
        if (0 <? length paramPairs)%nat
        then baseUrl +:+ "?" +:+ join "&" paramPairs
        else baseUrl
    | _, _ => normalizedUrl
    end
  else normalizedUrl.

(** The state of the loop: the set [uniqueUrls] and the array
    [filteredImages]. *)
Definition PassState : Type := gset string * list ImageRecord.

(** The callback of [images.forEach]. *)
Definition passStep (state : PassState) (image : ImageRecord) : PassState :=
  let '(uniqueUrls, filteredImages) := state in
  if sizeFilter image then
    let normalizedUrl := normalizeUrl (src image) in
    if bool_decide (normalizedUrl ∈ uniqueUrls) then state
    else ({[normalizedUrl]} ∪ uniqueUrls, filteredImages ++ [setSrc normalizedUrl image])
  else state.

(** The candidate that decides the record of source [u]: the first one that
    passes the size filter and whose source normalizes to [u]. *)
Definition firstCandidate (u : string) (images : list ImageRecord) : option ImageRecord :=
  List.find (fun image => sizeFilter image && String.eqb (normalizeUrl (src image)) u) images.

(** The records [extractImages] returns for the candidates [images]. *)
Definition finalPass (images : list ImageRecord) : list ImageRecord :=
  snd (foldl passStep (∅, []) images).

End Extraction.

(** ** Validation of image data: [validateImageData] *)

Module Validator.
Import Sniffer.

Definition minSize : Z := 100.

(** The [switch] on the type, inside the [try] block and after the
    empty-buffer test. *)
Definition validateBody (view : ArrayBuffer) (type : string) : completion bool :=
  if String.eqb type "jpg" then
    len_ge view minSize &&& u8 view 0 0xFF &&& u8 view 1 0xD8
  else if String.eqb type "png" then
    len_ge view minSize &&& u8 view 0 0x89 &&& u8 view 1 0x50 &&& u8 view 2 0x4E
      &&& u8 view 3 0x47
  else if String.eqb type "gif" then
    len_ge view minSize &&&
      ((u8 view 0 0x47 &&& u8 view 1 0x49 &&& u8 view 2 0x46) |||
       (u8 view 0 0x47 &&& u8 view 1 0x49 &&& u8 view 2 0x66))
  else if String.eqb type "webp" then
    len_ge view minSize &&& u8 view 0 0x52 &&& u8 view 1 0x49 &&& u8 view 2 0x46
      &&& u8 view 3 0x46
  else if String.eqb type "bmp" then
    len_ge view minSize &&& u8 view 0 0x42 &&& u8 view 1 0x4D
  else len_ge view minSize.

Definition validateImageData (buffer : ArrayBuffer) (type : string) : completion bool :=
  tryCatch
    (if byteLength buffer =? 0 then Normal false else validateBody buffer type)
    (fun _ => Normal false).

(** A place of a signature: an offset and the bytes expected there. *)
Definition Chunk : Type := nat * list Byte.byte.

(** The bytes of [chunk] stand in [buffer] at its offset. *)
Definition holdsAt (buffer : ArrayBuffer) (chunk : Chunk) : Prop :=
  take (length chunk.2) (drop chunk.1 buffer) = chunk.2.

Definition ftyp : list Byte.byte := [Byte.x66; Byte.x74; Byte.x79; Byte.x70].

(** The brands of a tag, each allowed at offset 8 and at offset 12 of a buffer
    with [ftyp] at offset 4. *)
Definition ftypSignatures (brands : list (list Byte.byte)) : list (list Chunk) :=
  foldr (fun brand acc =>
           [(4%nat, ftyp); (8%nat, brand)] :: [(4%nat, ftyp); (12%nat, brand)] :: acc)
        [] brands.

(** The signatures of each tag, as the checks of the sniffer read them: a
    list of alternatives, each a list of chunks. *)
Definition signatures (tag : string) : list (list Chunk) :=
  if String.eqb tag "jpg" then [[(0%nat, [Byte.xff; Byte.xd8])]]
  else if String.eqb tag "png" then [[(0%nat, pngSignature)]]
  else if String.eqb tag "gif" then
    [[(0%nat, [Byte.x47; Byte.x49; Byte.x46])]; [(0%nat, [Byte.x47; Byte.x49; Byte.x66])]]
  else if String.eqb tag "bmp" then [[(0%nat, [Byte.x42; Byte.x4d])]]
  else if String.eqb tag "webp" then
    [[(0%nat, [Byte.x52; Byte.x49; Byte.x46; Byte.x46]);
      (8%nat, [Byte.x57; Byte.x45; Byte.x42; Byte.x50])]]
  else if String.eqb tag "avif" then
    ftypSignatures [[Byte.x61; Byte.x76; Byte.x69; Byte.x66];
                    [Byte.x61; Byte.x76; Byte.x69; Byte.x73]]
  else if String.eqb tag "ico" then
    [[(0%nat, [Byte.x00; Byte.x00; Byte.x00; Byte.x01])]]
  else if String.eqb tag "tiff" then
    [[(0%nat, [Byte.x4d; Byte.x4d; Byte.x00; Byte.x2a])];
     [(0%nat, [Byte.x49; Byte.x49; Byte.x00; Byte.x2a])]]
  else if String.eqb tag "heic" then
    ftypSignatures [[Byte.x68; Byte.x65; Byte.x69; Byte.x63];
                    [Byte.x68; Byte.x65; Byte.x69; Byte.x66]]
  else [].

(** Some signature of [tag] stands in [buffer]. *)
Definition hasSignature (buffer : ArrayBuffer) (tag : string) : Prop :=
  ∃ alternative, alternative ∈ signatures tag ∧ Forall (holdsAt buffer) alternative.

End Validator.

(** ** The download helpers of [background.js] *)

Module Background.
Import JsString Classifier.

(** [getExtensionFromUrl]; [None] is [null]. *)
Definition getExtensionFromUrl (url : string) : option string :=
  match matchExtension url with
  | Some extension =>
      Some (default EmptyString
              (split "#" (default EmptyString (split "?" extension !! 0%nat)) !! 0%nat))
  | None => None
  end.

End Background.

(** ** Tag sets *)

Module Tags.

(** The tags the classifier answers with for a URL that is not a data URI. *)
Definition urlTags : list string :=
  ["jpg"; "png"; "svg"; "webp"; "gif"; "bmp"; "ico"; "tiff"; "tif"; "apng"; "avif";
   "heic"; "unknown"].

(** The tags the network strategy answers with. *)
Definition fetchTags : list string :=
  ["jpg"; "png"; "gif"; "webp"; "bmp"; "svg"; "avif"; "tiff"; "ico"; "heic"; "unknown"].

End Tags.

(** ** SVG lengths and SVG files: [parseSvgLength], [getSvgDimensionsFromUrl] *)

Module SvgUrl.
Import JsString Svg.

(** [isNaN(n)] *)
Definition isNaN (n : number) : bool :=
  match n with
  | NaN => true
  | _ => false
  end.

Definition parseSvgLength (host : Host) (length : string) : number :=
  if String.eqb length EmptyString then Fin 0%Q
  else
    let fromRun :=
      match matchNumeric length with
      | Some run =>
          let num := parseFloat host run in
          if negb (isNaN num) && isPositive num then Some num else None
      | None => None
      end in
    match fromRun with
    | Some num => num
    | None =>
        if String.eqb length "100%" then Fin 100%Q
        else if String.eqb length "50%" then Fin 50%Q
        else Fin 0%Q
    end.

(** What the code reads of the response to the request for an SVG file:
    [ok] and the outcome of [text()]. *)
Record SvgResponse := {
  svg_ok : bool;
  svg_text : completion string
}.

(** The host's [fetch] for that request. *)
Definition FetchSvg := string -> completion SvgResponse.

(** The [try] block: the dimensions it returns, [None] when it falls through
    to the last [return]. [split(',')[1]] of a URL without comma is
    [undefined], which [decodeURIComponent] reads as a string. *)
Definition svgDimensionsAttempt (host : Host) (fetch : FetchSvg) (url : string)
  : completion (option Dimensions) :=
  if startsWith "data:image/svg+xml" url then
    let encodedSvg := default "undefined" (split "," url !! 1%nat) in
    decodedSvg ← decodeURIComponent host encodedSvg;
    Normal (Some (parseSvgDimensions host decodedSvg))
  else
    response ← fetch url;
    if svg_ok response then
      svgContent ← svg_text response;
      Normal (Some (parseSvgDimensions host svgContent))
    else Normal None.

(** The promise of the [async] function. *)
Definition getSvgDimensionsFromUrl (host : Host) (fetch : FetchSvg) (url : string)
  : completion Dimensions :=
  result ← tryCatch (svgDimensionsAttempt host fetch url) (fun _ => Normal None);
  Normal (default zeroDimensions result).

(** Dimensions as the resolver gives them: both zero, or both from 1 to
    50000. *)
Definition resolved (dimensions : Dimensions) : Prop :=
  dimensions = zeroDimensions ∨
  (1 <= dim_width dimensions <= 50000 ∧ 1 <= dim_height dimensions <= 50000).

End SvgUrl.

(** ** The refinement of one record *)

Module Refinement.
Import JsString Svg SvgUrl Network Coordinator.

(** [getImageInfoCoordinated(url, initialImage)] with its two promises made
    by the functions it calls. *)
Definition coordinate (host : Host) (fetch : Fetch) (fetchSvg : FetchSvg)
    (url : string) (initialImage : ImageRecord) : ImageRecord :=
  getImageInfoCoordinated (getImageTypeByFetch fetch url)
    (getSvgDimensionsFromUrl host fetchSvg url) initialImage.

(** The test of the [then] callback: something of the record changed. *)
Definition changed (updatedImage currentImage : ImageRecord) : bool :=
  negb (String.eqb (type updatedImage) (type currentImage)) ||
  negb (width updatedImage =? width currentImage) ||
  negb (height updatedImage =? height currentImage).

(** [Object.assign(images.find(img => img.src === source), updatedImage)]:
    the first record of that source takes every field of [updatedImage];
    nothing happens when there is none. *)
Fixpoint assignFirst (source : string) (updatedImage : ImageRecord)
    (images : list ImageRecord) : list ImageRecord :=
  match images with
  | [] => []
  | image :: rest =>
      if String.eqb (src image) source then updatedImage :: rest
      else image :: assignFirst source updatedImage rest
  end.

(** The [then] callback of the refinement started for the record of source
    [source] with the snapshot [currentImage], run on the array [images] as it
    is when the promise settles.  The copy of the list kept in [localStorage]
    is updated in the same way and is not part of this model. *)
Definition onCoordinated (source : string) (currentImage updatedImage : ImageRecord)
    (images : list ImageRecord) : list ImageRecord :=
  if changed updatedImage currentImage then assignFirst source updatedImage images
  else images.

End Refinement.

(** ** Hosts with [fxp] for the examples *)

Module SvgExamples.
Import Svg.

(** The root [fast-xml-parser] builds, with [parseAttributeValue: true], for
    an [svg] element of width 100 and height 50: both attributes are numbers. *)
Definition typedRoot : FxpElement :=
  {| fxp_width := Some (FNum (Fin 100%Q)); fxp_height := Some (FNum (Fin 50%Q));
     fxp_viewBox := None; fxp_style := None |}.

(** The root [DOMParser] finds for the same element. *)
Definition sizedRoot (widthAttr heightAttr : string) (viewBox : option string) : DomElement :=
  {| dom_width := Some widthAttr; dom_height := Some heightAttr; dom_viewBox := viewBox;
     dom_style := None; dom_cssWidth := EmptyString; dom_cssHeight := EmptyString;
     dom_bbox := Normal None |}.

(** A page with [fxp] whose two parsers find the roots [fxpRoot] and
    [domRoot]. *)
Definition fxpHost (fxpRoot : FxpElement) (domRoot : DomElement) : Host :=
  {| decodeURIComponent := fun s => Normal s;
     parseFloat := integerParseFloat;
     numberAdd := exactAdd;
     fxp := Some (fun _ => Normal (Some fxpRoot));
     domParser := fun _ => Normal (Some domRoot) |}.

End SvgExamples.

(** ** Records of the output *)

Module Output.
Import Extraction.

(** A record as the final pass leaves it: it passes the size filter and its
    source is normalized. *)
Definition keptRecord (image : ImageRecord) : Prop :=
  sizeFilter image = true ∧ normalizeUrl (src image) = src image.

End Output.

(** ** The records as shared objects *)

Module SharedRecords.
Import JsString Extraction Refinement.

(** The objects the array [images] refers to, the object of [images[i]] at
    place [i].  [filteredImages] refers to some of the same objects, and the
    callbacks of the refinements, which run after [extractImages] has
    returned, search [images]. *)
Abbreviation Heap := (list ImageRecord) (only parsing).

(** The state of the loop of the final pass: [uniqueUrls], the objects, and
    the places [filteredImages] refers to. *)
Definition SharedState : Type := gset string * Heap * list nat.

(** The callback of [images.forEach] on the object at place [i]:
    [image.src = normalizedUrl] writes to the object, and
    [filteredImages.push(image)] stores a reference to it. *)
Definition sharedStep (state : SharedState) (i : nat) : SharedState :=
  let '(uniqueUrls, heap, filteredImages) := state in
  match heap !! i with
  | Some image =>
      if sizeFilter image then
        let normalizedUrl := normalizeUrl (src image) in
        if bool_decide (normalizedUrl ∈ uniqueUrls) then state
        else ({[normalizedUrl]} ∪ uniqueUrls,
              <[i := setSrc normalizedUrl image]> heap,
              filteredImages ++ [i])
      else state
  | None => state
  end.

(** The objects and the array [filteredImages] when [extractImages]
    returns. *)
Definition sharedPass (images : Heap) : Heap * list nat :=
  let '(_, heap, filteredImages) :=
    foldl sharedStep (∅, images, []) (seq 0 (length images)) in
  (heap, filteredImages).

(** The records a holder of the returned array reads. *)
Definition readAll (heap : Heap) (filteredImages : list nat) : list ImageRecord :=
  omap (fun i => heap !! i) filteredImages.

(** The inner part of the [then] callback, on the array [storedImages]
    parsed from the entry [pageImages] of [localStorage] and written back:
    it is reached when something changed and [images] has a record of the
    source. *)
Definition onCoordinatedStored (source : string) (currentImage updatedImage : ImageRecord)
    (images storedImages : list ImageRecord) : list ImageRecord :=
  if changed updatedImage currentImage then
    match List.find (fun image => String.eqb (src image) source) images with
    | Some _ => assignFirst source updatedImage storedImages
    | None => storedImages
    end
  else storedImages.

End SharedRecords.

(** ** Downloads: [downloadImage] and [downloadAllImagesAsZip] of [background.js] *)

Module Downloads.
Import JsString Classifier Network Background.

(** An [async] computation in the browser: from the state of the world to
    the completion of the promise and the state it leaves.  Two calls with
    the same arguments can answer differently, as the world has changed. *)
Definition Async (World A : Type) : Type := World → completion A * World.

Definition resolve {World A : Type} (a : A) : Async World A :=
  fun world => (Normal a, world).

Definition reject {World A : Type} (e : error) : Async World A :=
  fun world => (Throw e, world).

(** [const x = await promise; k] *)
Definition await {World A B : Type} (promise : Async World A) (k : A → Async World B)
  : Async World B :=
  fun world =>
    match promise world with
    | (Normal a, world') => k a world'
    | (Throw e, world') => (Throw e, world')
    end.

(** [try { body } catch (error) { handler }] around awaited calls. *)
Definition tryAsync {World A : Type} (body : Async World A)
    (handler : error → Async World A) : Async World A :=
  fun world =>
    match body world with
    | (Normal a, world') => (Normal a, world')
    | (Throw e, world') => handler e world'
    end.

Notation "'AWAIT' x := promise 'IN' k" := (await promise (fun x => k))
  (at level 10, x name, promise at level 100, k at level 200, only parsing).

(** The argument of [chrome.downloads.download]; [saveAs] is always [true]. *)
Record DownloadOptions := {
  options_url : string;
  options_filename : string
}.

(** What the function uses of the browser.  [download] is
    [chrome.downloads.download]; [queryActiveTab] is the first tab
    [chrome.tabs.query] answers with, [None] when there is none;
    [requestCachedImage] is the message [getCachedImage] sent to a tab, with
    the [dataUrl] of an answer that has [success] and a non-empty [dataUrl],
    [None] for any other answer; [fetchFromCache] is the forced-cache
    [no-cors] request, with whether the response is [ok] or opaque;
    [dateNow] is [Date.now()]; [pathname] is [new URL(url).pathname], which
    throws on a string that is not a URL; [timeout] is the wait of 100 ms. *)
Record Chrome (World : Type) := {
  download : DownloadOptions → Async World unit;
  queryActiveTab : Async World (option nat);
  requestCachedImage : nat → string → Async World (option string);
  fetchFromCache : string → Async World bool;
  dateNow : World → Z;
  pathname : string → completion string;
  timeout : World → World
}.

Arguments download {World} _ _ _.
Arguments queryActiveTab {World} _ _.
Arguments requestCachedImage {World} _ _ _ _.
Arguments fetchFromCache {World} _ _ _.
Arguments dateNow {World} _ _.
Arguments pathname {World} _ _.
Arguments timeout {World} _ _.

(** [filename || fallback]: the fallback is evaluated only for a file name
    that is undefined or empty. *)
Definition orElse {World : Type} (filename : option string) (fallback : Async World string)
  : Async World string :=
  match filename with
  | Some (String _ _ as name) => resolve name
  | Some EmptyString | None => fallback
  end.

(** The name made of a prefix, [Date.now()] and an extension. *)
Definition stamped {World : Type} (chrome : Chrome World) (prefix extension : string)
  : Async World string :=
  fun world => (Normal (prefix +:+ pretty (dateNow chrome world) +:+ "." +:+ extension), world).

(** [getFilenameFromUrl] *)
Definition getFilenameFromUrl {World : Type} (chrome : Chrome World) (url : string)
  : Async World string :=
  fun world =>
    match pathname chrome url with
    | Throw e => (Throw e, world)
    | Normal path =>
        match List.last (split "/" path) EmptyString with
        | String _ _ as filename => (Normal filename, world)
        | EmptyString =>
            let extension :=
              match getExtensionFromUrl url with
              | Some (String _ _ as extension) => extension
              | Some EmptyString | None => "png"
              end in
            stamped chrome "image_" extension world
        end
    end.

(** The download of the URL itself, under the given name or the name read
    from the URL. *)
Definition networkDownload {World : Type} (chrome : Chrome World) (url : string)
    (filename : option string) : Async World unit :=
  AWAIT name := orElse filename (getFilenameFromUrl chrome url) IN
  download chrome {| options_url := url; options_filename := name |}.

(** The branch of a data URL. *)
Definition dataDownload {World : Type} (chrome : Chrome World) (url : string)
    (filename : option string) : Async World unit :=
  let extension :=
    match matchDataImage url with
    | Some subtype => default EmptyString (split ";" subtype !! 0%nat)
    | None => "png"
    end in
  AWAIT name := orElse filename (resolve ("image." +:+ extension)) IN
  download chrome {| options_url := url; options_filename := name |}.

Definition cachedMimeTypes : list string :=
  ["png"; "gif"; "webp"; "bmp"; "svg+xml"; "avif"; "tiff"; "ico"].

Definition validExtensions : list string :=
  ["jpg"; "jpeg"; "png"; "gif"; "webp"; "bmp"; "svg"; "avif"; "tiff"; "ico"].

(** The extension of the name given to a cached copy. *)
Definition cachedExtension (cacheData url : string) : string :=
  if startsWith "data:image/" cacheData then
    match matchDataImage cacheData with
    | Some mimeType =>
        if String.eqb mimeType "jpeg" then "jpg"
        else if arrayIncludes cachedMimeTypes mimeType
        then replaceFirst "+xml" EmptyString mimeType
        else "png"
    | None => "png"
    end
  else
    match getExtensionFromUrl url with
    | Some (String _ _ as urlExtension) =>
        if arrayIncludes validExtensions (toLowerCase urlExtension) then urlExtension
        else "png"
    | Some EmptyString | None => "png"
    end.

(** The first fallback, the copy the page script has cached: [true] when the
    function returns from it, [false] when there is no active tab. *)
Definition cacheDownload {World : Type} (chrome : Chrome World) (url : string)
    (filename : option string) : Async World bool :=
  AWAIT tab := queryActiveTab chrome IN
  match tab with
  | Some tab =>
      AWAIT answer := requestCachedImage chrome tab url IN
      match answer with
      | Some cacheData =>
          AWAIT name :=
            orElse filename (stamped chrome "image_" (cachedExtension cacheData url)) IN
          AWAIT _ := download chrome {| options_url := cacheData; options_filename := name |} IN
          resolve true
      | None => reject (Error "no cached image")
      end
  | None => resolve false
  end.

(** The second fallback, tried when the first one throws: [true] when the
    function returns from it. *)
Definition fetchDownload {World : Type} (chrome : Chrome World) (url : string)
    (filename : option string) : Async World bool :=
  AWAIT usable := fetchFromCache chrome url IN
  if usable : bool then
    AWAIT _ := networkDownload chrome url filename IN
    resolve true
  else resolve false.

(** The [catch] block of the first attempt. *)
Definition fallbacks {World : Type} (chrome : Chrome World) (url : string)
    (filename : option string) (error : error) : Async World unit :=
  AWAIT returned :=
    tryAsync (cacheDownload chrome url filename)
      (fun cacheError =>
         tryAsync (fetchDownload chrome url filename) (fun fetchError => resolve false)) IN
  if returned : bool then resolve tt else reject error.

Definition downloadImage {World : Type} (chrome : Chrome World) (url : string)
    (filename : option string) : Async World unit :=
  tryAsync
    (if startsWith "data:image/" url then dataDownload chrome url filename
     else tryAsync (networkDownload chrome url filename) (fallbacks chrome url filename))
    (fun error => reject error).

(** The object [downloadAllImagesAsZip] fulfils with. *)
Record ZipResult := {
  success : bool;
  successCount : Z;
  errorCount : Z
}.

(** The [for] loop, from index [i] on, over the records still to download. *)
Fixpoint zipLoop {World : Type} (chrome : Chrome World) (i : nat)
    (images : list ImageRecord) (counts : Z * Z) : Async World (Z * Z) :=
  match images with
  | [] => resolve counts
  | image :: rest =>
      fun world =>
        let filename :=
          "image_" +:+ pretty (S i) +:+ "_" +:+ pretty (dateNow chrome world) +:+ "." +:+
          type image in
        let '(outcome, world) := downloadImage chrome (src image) (Some filename) world in
        let counts :=
          match outcome with
          | Normal _ => (counts.1 + 1, counts.2)
          | Throw _ => (counts.1, counts.2 + 1)
          end in
        let world :=
          match rest with
          | [] => world
          | _ :: _ => timeout chrome world
          end in
        zipLoop chrome (S i) rest counts world
  end.

Definition downloadAllImagesAsZip {World : Type} (chrome : Chrome World)
    (images : list ImageRecord) : Async World ZipResult :=
  tryAsync
    (AWAIT counts := zipLoop chrome 0 images (0, 0) IN
     resolve {| success := true; successCount := counts.1; errorCount := counts.2 |})
    (fun error => reject error).

(** A browser in which every download is refused and no tab is active. *)
Definition refusing : Chrome unit :=
  {| download := fun _ => reject (Error "refused");
     queryActiveTab := resolve None;
     requestCachedImage := fun _ _ => resolve None;
     fetchFromCache := fun _ => resolve false;
     dateNow := fun _ => 0;
     pathname := fun _ => Normal "/a.png";
     timeout := fun world => world |}.

End Downloads.

(** ** The type filter of the sidebar *)

Module Sidebar.

(** The condition of [filterImages]: the item of type [itemType] is
    displayed. *)
Definition shown (filterType itemType : string) : bool :=
  String.eqb filterType "all" ||
  (String.eqb filterType "jpg" &&
   (String.eqb itemType "jpg" || String.eqb itemType "jpeg")) ||
  String.eqb itemType filterType.

(** The callback of [window.imagesData.filter] in [downloadAllImages]. *)
Definition selected (filterType : string) (image : ImageRecord) : bool :=
  if String.eqb filterType "all" then true
  else if String.eqb filterType "jpg"
  then String.eqb (type image) "jpg" || String.eqb (type image) "jpeg"
  else String.eqb (type image) filterType.

End Sidebar.

(** * Properties *)

(** ** The Binary Sniffer *)

Section SnifferFacts.
Import Sniffer.

Lemma getUint8_normal view i x :
  getUint8 view i = Normal x → 0 <= i ∧ i + 1 <= byteLength view.
Proof. unfold getUint8. case_match; [lia | discriminate]. Qed.

Lemma getUint8_in_range view i :
  0 <= i → i + 1 <= byteLength view → getUint8 view i = Normal (byteAt view i).
Proof.
  intros H0 H1. unfold getUint8.
  destruct (Z.leb_spec 0 i), (Z.leb_spec (i + 1) (byteLength view)); simpl; (reflexivity || lia).
Qed.

Lemma getUint32_normal view i x :
  getUint32 view i = Normal x → 0 <= i ∧ i + 4 <= byteLength view.
Proof. unfold getUint32. case_match; [lia | discriminate]. Qed.

Lemma jpegResult_jpg view : jpegResult view = Normal "jpg".
Proof.
  unfold jpegResult, len_ge, andC, u8. simpl.
  destruct (Z.leb_spec 4 (byteLength view)) as [Hlen|Hlen]; simpl; [|reflexivity].
  rewrite !getUint8_in_range by lia. simpl.
  destruct (_ =? 255); simpl; [|reflexivity].
  destruct (_ =? 217); reflexivity.
Qed.

Lemma if_return_inv (c : completion bool) (t : string) (k : completion string) r :
  (IF c RETURN t ELSE k) = Normal r →
  (c = Normal true ∧ r = t) ∨ (c = Normal false ∧ k = Normal r).
Proof.
  destruct c as [[|]|e]; simpl; intros H; [left|right|discriminate]; split; congruence.
Qed.

Lemma bind_bool_inv (c : completion bool) (t k : completion string) r :
  (b ← c; if b : bool then t else k) = Normal r →
  (c = Normal true ∧ t = Normal r) ∨ (c = Normal false ∧ k = Normal r).
Proof. destruct c as [[|]|e]; simpl; intros H; [left|right|discriminate]; auto. Qed.

Lemma andC_true (a b : completion bool) :
  a &&& b = Normal true → a = Normal true ∧ b = Normal true.
Proof. destruct a as [[|]|e]; simpl; intros H; try discriminate; auto. Qed.

Lemma len_ge_true view n : len_ge view n = Normal true → n <= byteLength view.
Proof. unfold len_ge. intros [= H]. lia. Qed.

Lemma ftypBrand_true view a b : ftypBrand view a b = Normal true → 16 <= byteLength view.
Proof.
  unfold ftypBrand. intros H.
  destruct (12 <=? byteLength view); [|discriminate].
  destruct (getUint32 view 4) as [m|]; simpl in H; [|discriminate].
  destruct (m =? 1718909296); [|discriminate].
  destruct (getUint32 view 8) as [b1|]; simpl in H; [|discriminate].
  destruct (getUint32 view 12) as [b2|] eqn:H12; simpl in H; [|discriminate].
  apply getUint32_normal in H12. lia.
Qed.

(** Every answer of the signature checks is a tag whose check found the
    buffer long enough, or ['unknown']. *)
Lemma sniff_cases view r :
  sniff view = Normal r →
  r = "unknown" ∨ (r ∈ formatTags ∧ minSignatureLength r <= byteLength view).
Proof.
  unfold sniff. intros H.
  apply bind_bool_inv in H as [[Hjpg H]|[_ H]].
  { rewrite jpegResult_jpg in H. injection H as <-. right.
    apply andC_true in Hjpg as [Hjpg _]. apply andC_true in Hjpg as [Hjpg _].
    apply len_ge_true in Hjpg. split; [set_solver | exact Hjpg]. }
  repeat match type of H with
  | (IF _ RETURN _ ELSE _) = Normal _ =>
      apply if_return_inv in H as [[Hc ->]|[_ H]];
      [ right; split; [set_solver|];
        first [ apply ftypBrand_true in Hc; exact Hc
              | repeat (apply andC_true in Hc as [Hc _]);
                apply len_ge_true in Hc; exact Hc ]
      | ]
  end.
  left. congruence.
Qed.

Lemma unknown_not_tag : "unknown" ∉ formatTags.
Proof. unfold formatTags. rewrite !elem_of_cons, elem_of_nil. intros H. repeat destruct H as [H|H]; discriminate || exact H. Qed.

(** ** C2 *)

(** C2. For every byte buffer, the empty one included, the sniffer returns
    normally: its answer is ['unknown'] or a format tag, never an error.  A
    buffer shorter than the minimum signature length of a format is never
    answered with that format, and a buffer shorter than every signature is
    answered with ['unknown']. *)
Theorem detect_total_short_unknown (buffer : ArrayBuffer) :
  ∃ tag,
    detectImageTypeByMagicNumber buffer = Normal tag ∧
    (tag = "unknown" ∨ tag ∈ formatTags) ∧
    (∀ f, f ∈ formatTags → byteLength buffer < minSignatureLength f → tag ≠ f) ∧
    (byteLength buffer < 2 → tag = "unknown").
Proof.
  unfold detectImageTypeByMagicNumber.
  assert (Hshort : ∀ f, f ∈ formatTags → 2 <= minSignatureLength f).
  { intros f Hf. unfold formatTags in Hf.
    repeat (apply elem_of_cons in Hf as [->|Hf]; [vm_compute; discriminate|]).
    inversion Hf. }
  destruct (byteLength buffer =? 0) eqn:Hlen; simpl.
  - exists "unknown". split; [reflexivity|]. split; [auto|]. split; [|auto].
    intros f Hf _ <-. exact (unknown_not_tag Hf).
  - destruct (sniff buffer) as [r|e] eqn:Hs; simpl.
    + exists r. split; [reflexivity|].
      destruct (sniff_cases _ _ Hs) as [->|[Htag Hmin]].
      * split; [auto|]. split; [|auto]. intros f Hf _ <-. exact (unknown_not_tag Hf).
      * split; [auto|]. split.
        -- intros f Hf Hlt <-. lia.
        -- intros Hlt. specialize (Hshort r Htag). lia.
    + exists "unknown". split; [reflexivity|]. split; [auto|]. split; [|auto].
      intros f Hf _ <-. exact (unknown_not_tag Hf).
Qed.

Lemma detect_total_short_unknown_witness :
  byteLength [] < 2 ∧ detectImageTypeByMagicNumber [] = Normal "unknown".
Proof.
  split; [reflexivity|].
  destruct (detect_total_short_unknown []) as (tag & Hdetect & _ & _ & Hshort).
  rewrite Hdetect. f_equal. apply Hshort. reflexivity.
Defined.

Lemma u8_at view i b v :
  0 <= i → view !! Z.to_nat i = Some b →
  u8 view i v = Normal (Z.of_N (Byte.to_N b) =? v).
Proof.
  intros Hi Hb. unfold u8. rewrite getUint8_in_range; [|exact Hi|].
  - unfold byteAt. rewrite Hb. reflexivity.
  - apply lookup_lt_Some in Hb. unfold byteLength. lia.
Qed.

Lemma len_ge_intro view n : n <= byteLength view → len_ge view n = Normal true.
Proof. intros H. unfold len_ge. f_equal. lia. Qed.

Lemma byteLength_app (a b : ArrayBuffer) :
  byteLength (a ++ b) = byteLength a + byteLength b.
Proof. unfold byteLength. rewrite length_app. lia. Qed.

Lemma byteLength_nonneg (a : ArrayBuffer) : 0 <= byteLength a.
Proof. unfold byteLength. lia. Qed.

(** ** C3 *)

(** C3. The checks run in a fixed order and the first match wins: a buffer
    whose first two bytes are FF D8 is answered with ['jpg'], whatever follows
    (so is the buffer FF D8 00 00), and a buffer that starts with the eight
    bytes of the PNG signature is answered with ['png'], never ['jpg']. *)
Theorem detect_jpg_png_first_match :
  (∀ rest, detectImageTypeByMagicNumber (Byte.xff :: Byte.xd8 :: rest) = Normal "jpg") ∧
  detectImageTypeByMagicNumber [Byte.xff; Byte.xd8; Byte.x00; Byte.x00] = Normal "jpg" ∧
  (∀ rest, detectImageTypeByMagicNumber (pngSignature ++ rest) = Normal "png" ∧
           detectImageTypeByMagicNumber (pngSignature ++ rest) ≠ Normal "jpg").
Proof.
  assert (Hjpg : ∀ rest,
    detectImageTypeByMagicNumber (Byte.xff :: Byte.xd8 :: rest) = Normal "jpg").
  { intros rest. unfold detectImageTypeByMagicNumber.
    set (view := Byte.xff :: Byte.xd8 :: rest).
    assert (Hlen : 2 <= byteLength view)
      by (pose proof (byteLength_app [Byte.xff; Byte.xd8] rest) as Happ;
          pose proof (byteLength_nonneg rest); change (byteLength [_; _]) with 2 in Happ;
          change ([_; _] ++ rest) with view in Happ; lia).
    replace (byteLength view =? 0) with false by lia.
    unfold sniff.
    rewrite (len_ge_intro view 2 Hlen).
    rewrite (u8_at view 0 Byte.xff 255), (u8_at view 1 Byte.xd8 216) by (lia || reflexivity).
    simpl. rewrite jpegResult_jpg. reflexivity. }
  split; [exact Hjpg|]. split; [apply Hjpg|].
  intros rest.
  assert (Hpng : detectImageTypeByMagicNumber (pngSignature ++ rest) = Normal "png");
    [|split; [exact Hpng | rewrite Hpng; discriminate]].
  unfold detectImageTypeByMagicNumber.
  set (view := pngSignature ++ rest).
  assert (Hlen : 8 <= byteLength view)
    by (unfold view; rewrite byteLength_app; pose proof (byteLength_nonneg rest);
        change (byteLength pngSignature) with 8; lia).
  replace (byteLength view =? 0) with false by lia.
  unfold sniff.
  rewrite (len_ge_intro view 2), (len_ge_intro view 8) by lia.
  rewrite (u8_at view 0 Byte.x89 255), (u8_at view 0 Byte.x89 137),
    (u8_at view 1 Byte.x50 80), (u8_at view 2 Byte.x4e 78), (u8_at view 3 Byte.x47 71),
    (u8_at view 4 Byte.x0d 13), (u8_at view 5 Byte.x0a 10), (u8_at view 6 Byte.x1a 26),
    (u8_at view 7 Byte.x0a 10) by (lia || reflexivity).
  reflexivity.
Qed.

End SnifferFacts.

(** ** The Result Coordinator *)

Section CoordinatorFacts.
Import Svg Coordinator.

(** ** C1 *)

(** C1. Whatever the record and the two settled results, the merge overwrites
    the type only with a fulfilled type other than ['unknown'], and the width
    and height only with fulfilled dimensions that are both positive; the other
    fields are kept.  Hence a type other than ['unknown'] never becomes
    ['unknown'], and dimensions that are both positive stay positive. *)
Theorem merge_is_monotone (typeByFetch : completion string)
    (svgDimensions : completion Dimensions) (initialImage : ImageRecord) :
  let updatedImage := getImageInfoCoordinated typeByFetch svgDimensions initialImage in
  type updatedImage =
    match typeByFetch with
    | Normal t => if String.eqb t "unknown" then type initialImage else t
    | Throw _ => type initialImage
    end ∧
  (width updatedImage, height updatedImage) =
    match (if String.eqb (type initialImage) "svg" then svgDimensions
           else Normal zeroDimensions) with
    | Normal d =>
        if (0 <? dim_width d) && (0 <? dim_height d) then (dim_width d, dim_height d)
        else (width initialImage, height initialImage)
    | Throw _ => (width initialImage, height initialImage)
    end ∧
  (src updatedImage, alt updatedImage, elementType updatedImage) =
    (src initialImage, alt initialImage, elementType initialImage) ∧
  (type initialImage ≠ "unknown" → type updatedImage ≠ "unknown") ∧
  (0 < width initialImage → 0 < height initialImage →
   0 < width updatedImage ∧ 0 < height updatedImage).
Proof.
  unfold getImageInfoCoordinated, settle.
  destruct typeByFetch as [t|e]; simpl;
    [destruct (String.eqb_spec t "unknown") as [->|Ht]; simpl|];
    (destruct (if String.eqb (type initialImage) "svg" then svgDimensions
               else Normal zeroDimensions) as [d|e'];
     [destruct (Z.ltb_spec 0 (dim_width d)), (Z.ltb_spec 0 (dim_height d))|]; simpl;
     repeat split; auto; lia).
Qed.

End CoordinatorFacts.

(** ** String lemmas *)

Section StringFacts.
Import JsString.

Lemma append_empty (s : string) : EmptyString +:+ s = s.
Proof. reflexivity. Qed.

Lemma append_cons (c : ascii) (a b : string) : String c a +:+ b = String c (a +:+ b).
Proof. reflexivity. Qed.

Lemma includes_char_cons c a r :
  includes (String c EmptyString) (String a r) =
  Ascii.eqb a c || includes (String c EmptyString) r.
Proof. simpl. rewrite andb_true_r, (Ascii.eqb_sym c a). reflexivity. Qed.

Lemma free_empty c : free c EmptyString.
Proof. reflexivity. Qed.

Lemma free_cons c a r : free c (String a r) ↔ a ≠ c ∧ free c r.
Proof.
  unfold free. rewrite includes_char_cons, orb_false_iff.
  destruct (Ascii.eqb_spec a c); intuition congruence.
Qed.

Lemma free_app c a b : free c a → free c b → free c (a +:+ b).
Proof.
  induction a as [|x a IH]; simpl; [auto|].
  intros Ha Hb. apply free_cons in Ha as [Hx Ha]. apply free_cons. auto.
Qed.

Lemma split_free sep s : free sep s → split sep s = [s].
Proof.
  induction s as [|a s IH]; [reflexivity|].
  intros H. apply free_cons in H as [Ha Hs]. simpl.
  destruct (Ascii.eqb_spec a sep); [congruence|]. rewrite (IH Hs). reflexivity.
Qed.

Lemma split_not_nil sep s : split sep s ≠ [].
Proof.
  destruct s as [|a s]; simpl; [discriminate|].
  destruct (Ascii.eqb a sep); [discriminate|]. destruct (split sep s); discriminate.
Qed.

(** Every piece of a split is free of the separator, and of any character the
    string is free of. *)
Lemma split_pieces_free sep c s :
  c = sep ∨ free c s → Forall (free c) (split sep s).
Proof.
  induction s as [|a s IH]; intros H.
  - repeat constructor.
  - simpl. destruct (Ascii.eqb_spec a sep) as [->|Hne].
    + constructor; [apply free_empty|]. apply IH.
      destruct H as [->|H]; [auto|]. apply free_cons in H. tauto.
    + assert (Hc : a ≠ c ∧ (c = sep ∨ free c s)).
      { destruct H as [->|H]; [auto|]. apply free_cons in H. tauto. }
      destruct Hc as [Hac Hs]. specialize (IH Hs).
      destruct (split sep s) as [|h t]; [repeat constructor; apply free_cons; auto using free_empty|].
      inversion IH; subst. constructor; [apply free_cons; auto|assumption].
Qed.

Lemma split_app_sep sep a b :
  free sep a → split sep (a +:+ String sep b) = a :: split sep b.
Proof.
  induction a as [|x a IH]; intros H; simpl.
  - rewrite Ascii.eqb_refl. reflexivity.
  - apply free_cons in H as [Hx Ha]. destruct (Ascii.eqb_spec x sep); [congruence|].
    rewrite (IH Ha). reflexivity.
Qed.

Lemma join_cons_cons sep x y l :
  join (String sep EmptyString) (x :: y :: l) =
  x +:+ String sep (join (String sep EmptyString) (y :: l)).
Proof. reflexivity. Qed.

Lemma split_join sep l :
  l ≠ [] → Forall (free sep) l → split sep (join (String sep EmptyString) l) = l.
Proof.
  induction l as [|x l IH]; [congruence|]. intros _ H.
  inversion H as [|? ? Hx Hl]; subst.
  destruct l as [|y l].
  - simpl. apply split_free; assumption.
  - rewrite join_cons_cons.
    rewrite split_app_sep by assumption. rewrite IH; [reflexivity|discriminate|assumption].
Qed.

Lemma join_free c sep l :
  c ≠ sep → Forall (free c) l → free c (join (String sep EmptyString) l).
Proof.
  intros Hne. induction l as [|x l IH]; intros H; [apply free_empty|].
  inversion H as [|? ? Hx Hl]; subst. destruct l as [|y l]; [exact Hx|].
  rewrite join_cons_cons. apply free_app; [exact Hx|].
  apply free_cons. split; [congruence|]. apply IH; assumption.
Qed.

(** A string that includes the separator splits into at least two pieces. *)
Lemma split_includes sep s :
  includes (String sep EmptyString) s = true →
  ∃ a b rest, split sep s = a :: b :: rest.
Proof.
  induction s as [|x s IH]; [discriminate|].
  rewrite includes_char_cons. simpl. destruct (Ascii.eqb x sep).
  - intros _. destruct (split sep s) as [|h t] eqn:Hs; [destruct (split_not_nil _ _ Hs)|eauto].
  - simpl. intros H. destruct (IH H) as (a & b & rest & ->). eauto.
Qed.

Lemma filter_filter_id {A} (f : A → bool) l : List.filter f (List.filter f l) = List.filter f l.
Proof.
  induction l as [|x l IH]; simpl; [reflexivity|].
  destruct (f x) eqn:Hx; simpl; rewrite ?Hx, IH; reflexivity.
Qed.

Lemma Forall_filter_keep {A} (P : A → Prop) (f : A → bool) l :
  Forall P l → Forall P (List.filter f l).
Proof.
  induction 1 as [|x l Hx Hl IH]; simpl; [constructor|].
  destruct (f x); [constructor|]; assumption.
Qed.

End StringFacts.

(** ** The final pass of the extraction *)

Section ExtractionFacts.
Import JsString Extraction.

Lemma includes_app_sep c a b :
  includes (String c EmptyString) (a +:+ String c b) = true.
Proof.
  induction a as [|x a IH]; rewrite ?append_empty, ?append_cons, includes_char_cons.
  - rewrite Ascii.eqb_refl. reflexivity.
  - rewrite IH. apply orb_true_r.
Qed.

(** The two outcomes of the normalization of a source with a query string. *)
Lemma normalizeUrl_shape s :
  includes "?" s = true →
  ∃ baseUrl params,
    free "?" baseUrl ∧ free "?" params ∧
    normalizeUrl s =
      let paramPairs := List.filter keepParam (split "&" params) in
      if (0 <? length paramPairs)%nat
      then baseUrl +:+ String "?" (join "&" paramPairs)
      else baseUrl.
Proof.
  intros H. unfold normalizeUrl. rewrite H.
  destruct (split_includes _ _ H) as (a & b & rest & Hs).
  pose proof (split_pieces_free "?" "?" s (or_introl eq_refl)) as Hfree.
  rewrite Hs in *. inversion Hfree as [|? ? Ha Hrest]; subst.
  inversion Hrest as [|? ? Hb _]; subst.
  exists a, b. split; [exact Ha|]. split; [exact Hb|]. reflexivity.
Qed.

Lemma normalizeUrl_no_query s : free "?" s → normalizeUrl s = s.
Proof. intros H. unfold normalizeUrl. unfold free in H. rewrite H. reflexivity. Qed.

(** ** C6 *)

(** C6. Normalization of a source (the query string split off and the
    tracking parameters removed) is idempotent: normalizing a normalized
    string gives the same string. *)
Theorem normalizeUrl_idempotent (u : string) :
  normalizeUrl (normalizeUrl u) = normalizeUrl u.
Proof.
  destruct (includes "?" u) eqn:Hq.
  2: { rewrite (normalizeUrl_no_query u Hq). apply normalizeUrl_no_query, Hq. }
  destruct (normalizeUrl_shape u Hq) as (baseUrl & params & Hbase & Hparams & ->).
  cbv zeta.
  set (paramPairs := List.filter keepParam (split "&" params)).
  assert (Hamp : Forall (free "&") paramPairs).
  { apply Forall_filter_keep, split_pieces_free. left. reflexivity. }
  assert (Hqm : Forall (free "?") paramPairs).
  { apply Forall_filter_keep, split_pieces_free. right. exact Hparams. }
  assert (Hkeep : List.filter keepParam paramPairs = paramPairs)
    by apply filter_filter_id.
  destruct paramPairs as [|p ps] eqn:Hpp.
  - simpl. apply normalizeUrl_no_query, Hbase.
  - change (0 <? length (p :: ps))%nat with true. cbv iota.
    assert (Hjoin : free "?" (join "&" (p :: ps)))
      by (apply join_free; [discriminate|exact Hqm]).
    unfold normalizeUrl at 1.
    rewrite includes_app_sep.
    rewrite split_app_sep by exact Hbase.
    rewrite (split_free "?" _ Hjoin).
    cbn [lookup list_lookup].
    rewrite split_join by (discriminate || exact Hamp).
    rewrite Hkeep. reflexivity.
Qed.

Lemma filter_src_absent u (out : list ImageRecord) :
  u ∉ src <$> out → List.filter (fun r => String.eqb (src r) u) out = [].
Proof.
  induction out as [|r out IH]; simpl; [reflexivity|].
  rewrite not_elem_of_cons. intros [Hne Hout].
  destruct (String.eqb_spec (src r) u); [congruence|]. apply IH, Hout.
Qed.

Lemma passStep_eq (uniqueUrls : gset string) out image :
  passStep (uniqueUrls, out) image =
  if sizeFilter image then
    if bool_decide (normalizeUrl (src image) ∈ uniqueUrls) then (uniqueUrls, out)
    else ({[normalizeUrl (src image)]} ∪ uniqueUrls,
          out ++ [setSrc (normalizeUrl (src image)) image])
  else (uniqueUrls, out).
Proof. reflexivity. Qed.

(** The loop keeps the set equal to the sources of the output, and the
    sources distinct; the record of a source is decided by its first
    candidate. *)
Lemma pass_invariant images : ∀ (uniqueUrls : gset string) (out : list ImageRecord),
  (∀ u, u ∈ uniqueUrls ↔ u ∈ src <$> out) →
  NoDup (src <$> out) →
  let final := foldl passStep (uniqueUrls, out) images in
  (∀ u, u ∈ final.1 ↔ u ∈ src <$> final.2) ∧
  NoDup (src <$> final.2) ∧
  ∀ u, List.filter (fun r => String.eqb (src r) u) final.2 =
       if bool_decide (u ∈ uniqueUrls)
       then List.filter (fun r => String.eqb (src r) u) out
       else match firstCandidate u images with
            | Some first => [setSrc u first]
            | None => []
            end.
Proof.
  induction images as [|image images IH]; intros uniqueUrls out HU Hnd.
  - simpl. split; [exact HU|]. split; [exact Hnd|]. intros u.
    case_bool_decide as Hu; [reflexivity|]. apply filter_src_absent. rewrite <- HU. exact Hu.
  - cbv zeta. cbn [foldl]. rewrite passStep_eq. unfold firstCandidate. cbn [List.find].
    fold (firstCandidate).
    destruct (sizeFilter image) eqn:Hsize; cbn [andb]; [|apply IH; assumption].
    set (n := normalizeUrl (src image)).
    case_bool_decide as Hn; [|].
    + destruct (IH uniqueUrls out HU Hnd) as (H1 & H2 & H3).
      split; [exact H1|]. split; [exact H2|]. intros u. rewrite H3.
      case_bool_decide as Hu; [reflexivity|].
      destruct (String.eqb_spec n u) as [->|Hne]; [contradiction|reflexivity].
    + assert (HU' : ∀ u, u ∈ {[n]} ∪ uniqueUrls ↔ u ∈ src <$> (out ++ [setSrc n image])).
      { intros u. rewrite fmap_app, elem_of_app, elem_of_union, elem_of_singleton, <- HU.
        simpl. rewrite list_elem_of_singleton. tauto. }
      assert (Hnd' : NoDup (src <$> (out ++ [setSrc n image]))).
      { rewrite fmap_app. apply NoDup_app. split; [exact Hnd|]. split.
        - intros u Hu Hu'. simpl in Hu'. apply list_elem_of_singleton in Hu'. subst u.
          apply Hn, HU, Hu.
        - simpl. apply NoDup_singleton. }
      destruct (IH _ _ HU' Hnd') as (H1 & H2 & H3).
      split; [exact H1|]. split; [exact H2|]. intros u. rewrite H3.
      rewrite List.filter_app. simpl.
      destruct (String.eqb_spec n u) as [->|Hne].
      * rewrite bool_decide_eq_true_2 by (apply elem_of_union_l, elem_of_singleton; reflexivity).
        rewrite bool_decide_eq_false_2 by exact Hn.
        rewrite filter_src_absent by (rewrite <- HU; exact Hn). reflexivity.
      * rewrite app_nil_r.
        case_bool_decide as Hu; case_bool_decide as Hu'; try reflexivity.
        -- apply elem_of_union in Hu as [Hu|Hu]; [|contradiction].
           apply elem_of_singleton in Hu. congruence.
        -- destruct Hu. apply elem_of_union_r, Hu'.
Qed.

(** ** C5 *)

(** C5. In the output of one pass the sources are pairwise distinct.  Among
    the candidates that pass the size filter, all those whose sources
    normalize to one string [u] give exactly one record: the first of them,
    with [u] as its source; when no candidate that passes the filter normalizes
    to [u], no record has source [u].  The source
    [https://site.com/a?utm_source=x&b=2] normalizes to
    [https://site.com/a?b=2]. *)
Theorem final_pass_unique_first_kept (images : list ImageRecord) :
  NoDup (src <$> finalPass images) ∧
  (∀ u, List.filter (fun r => String.eqb (src r) u) (finalPass images) =
        match firstCandidate u images with
        | Some first => [setSrc u first]
        | None => []
        end) ∧
  normalizeUrl "https://site.com/a?utm_source=x&b=2" = "https://site.com/a?b=2".
Proof.
  destruct (pass_invariant images ∅ []) as (_ & Hnd & Hfirst).
  - intros u. simpl. rewrite elem_of_nil. set_solver.
  - simpl. apply NoDup_nil_2.
  - split; [exact Hnd|]. split; [|reflexivity].
    intros u. unfold finalPass. rewrite Hfirst.
    rewrite bool_decide_eq_false_2 by set_solver. reflexivity.
Qed.

(** Two candidates with one normalized source, the first of them 5 by 5: the
    record kept is the second candidate, not the first; and when both are 5 by
    5 no record is produced. *)
Lemma final_pass_first_candidate_dropped :
  ¬ (∀ a b : ImageRecord,
       normalizeUrl (src a) = normalizeUrl (src b) →
       finalPass [a; b] = [setSrc (normalizeUrl (src a)) a]).
Proof.
  intros H.
  specialize (H {| src := "https://site.com/a?utm_source=x"; alt := "first";
                   width := 5; height := 5; type := "png"; elementType := "img" |}
                {| src := "https://site.com/a"; alt := "second";
                   width := 100; height := 100; type := "png"; elementType := "img" |}
                eq_refl).
  vm_compute in H. discriminate H.
Qed.

Lemma pass_skips_filtered images : ∀ state : PassState,
  foldl passStep state images = foldl passStep state (List.filter sizeFilter images).
Proof.
  induction images as [|image images IH]; intros [uniqueUrls out]; [reflexivity|].
  cbn [foldl List.filter]. destruct (sizeFilter image) eqn:Hsize.
  - cbn [foldl]. apply IH.
  - rewrite passStep_eq, Hsize. apply IH.
Qed.

Lemma sizeFilter_false (image : ImageRecord) :
  sizeFilter image = false ↔
  width image < 10 ∧ height image < 10 ∧ ¬ (width image = 0 ∧ height image = 0).
Proof.
  unfold sizeFilter, minWidth, minHeight.
  rewrite !orb_false_iff, andb_false_iff, !Z.leb_gt, !Z.eqb_neq. lia.
Qed.

(** ** C4 *)

(** C4. The size filter removes a record exactly when both of its dimensions
    are below 10 and they are not both zero: a record of 5 by 5 is removed and
    a record of 0 by 0 is kept.  A removed record has no part in the output of
    the pass, and a pass over the record alone returns nothing exactly when
    the filter removes it. *)
Theorem size_filter_removes_small_known :
  (∀ image : ImageRecord,
     (sizeFilter image = false ↔
      width image < 10 ∧ height image < 10 ∧ ¬ (width image = 0 ∧ height image = 0)) ∧
     (finalPass [image] = [] ↔ sizeFilter image = false)) ∧
  (∀ images, finalPass images = finalPass (List.filter sizeFilter images)) ∧
  (∀ s a t e, sizeFilter {| src := s; alt := a; width := 5; height := 5;
                            type := t; elementType := e |} = false) ∧
  (∀ s a t e, sizeFilter {| src := s; alt := a; width := 0; height := 0;
                            type := t; elementType := e |} = true).
Proof.
  split; [|split; [|split; reflexivity]].
  - intros image. split; [apply sizeFilter_false|].
    unfold finalPass. cbn [foldl]. rewrite passStep_eq.
    destruct (sizeFilter image); simpl.
    + split; [|discriminate]. intros H. discriminate H.
    + tauto.
  - intros images. unfold finalPass. rewrite pass_skips_filtered. reflexivity.
Qed.

(** A record of width 0, an unknown width, and height 5 is removed. *)
Lemma size_filter_drops_half_known :
  ¬ (∀ image : ImageRecord,
       sizeFilter image = false →
       (width image ≠ 0 ∧ height image ≠ 0) ∧ width image < 10 ∧ height image < 10).
Proof.
  intros H.
  destruct (H {| src := "https://site.com/b.png"; alt := EmptyString;
                 width := 0; height := 5; type := "png"; elementType := "img" |}
              eq_refl) as [[Hw _] _].
  apply Hw. reflexivity.
Qed.

End ExtractionFacts.

(** ** The URL Heuristic Classifier *)

Section ClassifierFacts.
Import JsString Classifier.


(** ** C7 *)




Lemma keywordScan_firstHit (urlLower : string) :
  keywordScan urlLower = firstHit keywordPriority urlLower.
Proof.
  unfold keywordScan, firstHit, keywordPriority.
  cbn [List.find existsb fst snd].
  rewrite !orb_false_r.
  repeat match goal with
  | |- context [if ?c then _ else _] =>
      match c with
      | context [includes] => destruct c; [reflexivity|]
      end
  end.
  reflexivity.
Qed.

(** ** C8 *)

(** C8, as the code has it. For every URL that is not a data URI and in which
    no extension is found (the URL without query and fragment has no dot
    followed by a last segment), the classifier scans the lowercased URL for
    the keywords in the order jpg/jpeg, png, svg, webp, gif, bmp, ico,
    tiff/tif, apng, avif and returns the first one present; a URL that holds
    both [png] and [jpg] is answered with [jpg]. *)
Theorem keyword_scan_priority (url : string) :
  startsWith "data:image/" url = false →
  matchExtension (cleanUrlOf url) = None →
  (∀ tag, firstHit keywordPriority (toLowerCase url) = Some tag → getImageType url = tag) ∧
  (includes "png" (toLowerCase url) = true → includes "jpg" (toLowerCase url) = true →
   getImageType url = "jpg").
Proof.
  intros Hdata Hext. unfold getImageType. rewrite Hdata, Hext. cbv zeta.
  change (String.eqb EmptyString EmptyString) with true. cbv iota.
  rewrite keywordScan_firstHit. split.
  - intros tag ->. reflexivity.
  - intros _ Hjpg. rewrite <- keywordScan_firstHit. unfold keywordScan.
    rewrite Hjpg. reflexivity.
Qed.

Lemma keyword_scan_priority_witness :
  startsWith "data:image/" "http://localhost/png_jpg" = false ∧
  matchExtension (cleanUrlOf "http://localhost/png_jpg") = None ∧
  firstHit keywordPriority (toLowerCase "http://localhost/png_jpg") = Some "jpg" ∧
  getImageType "http://localhost/png_jpg" = "jpg".
Proof.
  split; [reflexivity|]. split; [reflexivity|]. split; [reflexivity|].
  apply (keyword_scan_priority "http://localhost/png_jpg"); reflexivity.
Defined.

(** A URL without extension that holds both [png] and [jpg] is not answered
    with [png]. *)
Lemma keyword_scan_png_not_first :
  ¬ (∀ url : string,
       startsWith "data:image/" url = false →
       matchExtension (cleanUrlOf url) = None →
       (∀ tag, firstHit specKeywordPriority (toLowerCase url) = Some tag →
               getImageType url = tag) ∧
       (includes "png" (toLowerCase url) = true →
        includes "jpg" (toLowerCase url) = true →
        getImageType url = "png")).
Proof.
  intros H.
  destruct (H "http://localhost/png_jpg" eq_refl eq_refl) as [_ Hpng].
  specialize (Hpng eq_refl eq_refl). vm_compute in Hpng. discriminate Hpng.
Qed.

End ClassifierFacts.

(** ** The Network Resolution Strategy *)

Section NetworkFacts.
Import JsString Classifier Sniffer Network.

Lemma urlMimeScan_firstHit (urlLower : string) :
  urlMimeScan urlLower = default "unknown" (firstHit mimePriority urlLower).
Proof.
  unfold urlMimeScan, firstHit, mimePriority.
  cbn [List.find existsb fst snd].
  rewrite !orb_false_r.
  repeat match goal with
  | |- context [if ?c then _ else _] =>
      match c with
      | context [includes] => destruct c; [reflexivity|]
      end
  end.
  reflexivity.
Qed.

Lemma tryConfigs_all_fail fetch url :
  allAttemptsFail fetch url → tryConfigs fetch url fetchConfigs None = None.
Proof.
  intros H. unfold fetchConfigs in *. cbn [tryConfigs].
  destruct (H _ (list_elem_of_here _ _)) as [e1 ->].
  destruct (H _ (list_elem_of_further _ _ _ (list_elem_of_here _ _))) as [e2 ->].
  reflexivity.
Qed.

(** ** C10 *)

(** C10. The promise of the network strategy never rejects: for every URL and
    every behaviour of [fetch] it fulfils with a tag.  When every attempt
    fails, the tag is the one of the first [image/<subtype>] token found in
    the lowercased URL, in the order jpeg/jpg (for jpg), png, gif, webp, bmp,
    svg, avif, tiff, ico, and ['unknown'] when the URL holds none.  The same
    holds when a response arrives but leaves nothing to read. *)
Theorem fetch_never_rejects (fetch : Fetch) (url : string) :
  (∃ tag, getImageTypeByFetch fetch url = Normal tag) ∧
  (allAttemptsFail fetch url →
   getImageTypeByFetch fetch url =
   Normal (default "unknown" (firstHit mimePriority (toLowerCase url)))) ∧
  (nothingToRead fetch url →
   getImageTypeByFetch fetch url =
   Normal (default "unknown" (firstHit mimePriority (toLowerCase url)))).
Proof.
  assert (Hnothing : nothingToRead fetch url →
    getImageTypeByFetch fetch url =
    Normal (default "unknown" (firstHit mimePriority (toLowerCase url)))).
  { unfold nothingToRead, getImageTypeByFetch. intros H.
    rewrite <- urlMimeScan_firstHit.
    destruct (tryConfigs fetch url fetchConfigs None) as [response|]; [|reflexivity].
    destruct (isOpaque response); destruct H as [e ->]; reflexivity. }
  split; [|split; [|exact Hnothing]].
  - unfold getImageTypeByFetch.
    destruct (match tryConfigs fetch url fetchConfigs None with
              | Some response => _
              | None => _
              end) as [tag|e]; simpl; eauto.
  - intros H. apply Hnothing. unfold nothingToRead.
    rewrite (tryConfigs_all_fail fetch url H). exact I.
Qed.

Lemma fetch_never_rejects_witness :
  allAttemptsFail (fun _ _ => Throw (Error "blocked")) "https://cdn.site.com/x?mime=IMAGE/PNG" ∧
  getImageTypeByFetch (fun _ _ => Throw (Error "blocked"))
    "https://cdn.site.com/x?mime=IMAGE/PNG" = Normal "png".
Proof.
  assert (H : allAttemptsFail (fun _ _ => Throw (Error "blocked"))
                "https://cdn.site.com/x?mime=IMAGE/PNG")
    by (intros config _; eexists; reflexivity).
  split; [exact H|].
  exact (proj1 (proj2 (fetch_never_rejects _ "https://cdn.site.com/x?mime=IMAGE/PNG")) H).
Defined.

End NetworkFacts.

(** ** The SVG Dimension Resolver *)

Section SvgFacts.
Import JsString Svg.




Lemma viewBoxParts_nonempty viewBox p rest :
  viewBoxParts viewBox = p :: rest → String.eqb viewBox EmptyString = false.
Proof. destruct viewBox; [discriminate|reflexivity]. Qed.




Lemma clampRound_bounds (q : Q) : 1 <= clampRound (Fin q) <= 50000.
Proof.
  unfold clampRound.
  set (x := Qmin (Qmax q 1) 50000).
  assert (Hlo : (1 <= x)%Q) by (apply Q.min_glb; [apply Q.le_max_r|discriminate]).
  assert (Hhi : (x <= 50000)%Q) by apply Q.le_min_r.
  split.
  - change 1 with (Qfloor (1 + (1 # 2))).
    apply Qfloor_resp_le, Qplus_le_compat; [exact Hlo|apply Qle_refl].
  - change 50000 with (Qfloor (50000 + (1 # 2))).
    apply Qfloor_resp_le, Qplus_le_compat; [exact Hhi|apply Qle_refl].
Qed.



(** ** C9 *)





(** Commas do not separate: the view box [0,0,120,80] is one part, and a root
    with nothing else to give a size resolves to 0 by 0. *)
Lemma viewBox_commas_not_split :
  viewBoxParts "0,0,120,80" = ["0,0,120,80"] ∧
  parseSvgDimensions (exampleHost (viewBoxRoot "0,0,120,80")) scenarioMarkup =
    zeroDimensions.
Proof. split; vm_compute; reflexivity. Qed.

End SvgFacts.

(** * Further properties *)

(** ** The sniffer and the validator *)

Section SignatureFacts.
Import Sniffer Validator.

Lemma lor_shiftl_add (hi lo k : Z) :
  0 <= k → 0 <= lo < 2 ^ k → Z.lor (Z.shiftl hi k) lo = hi * 2 ^ k + lo.
Proof.
  intros Hk [Hlo Hhi]. rewrite Z.shiftl_mul_pow2 by exact Hk.
  assert (Hland : Z.land (hi * 2 ^ k) lo = 0).
  { apply Z.bits_inj'. intros n Hn. rewrite Z.land_spec, Z.bits_0.
    destruct (Z.lt_ge_cases n k) as [Hlt|Hge].
    - rewrite Z.mul_pow2_bits_low by exact Hlt. reflexivity.
    - destruct (Z.eq_dec lo 0) as [->|Hne].
      + rewrite Z.bits_0. apply andb_false_r.
      + rewrite (Z.bits_above_log2 lo n), andb_false_r; [reflexivity|lia|].
        assert (Z.log2 lo < k) by (apply Z.log2_lt_pow2; lia). lia. }
  rewrite (Z.add_nocarry_lxor _ _ Hland). symmetry. apply Z.lxor_lor, Hland.
Qed.

Lemma byteAt_range view i : 0 <= byteAt view i < 256.
Proof.
  unfold byteAt. destruct (view !! Z.to_nat i) as [b|]; [|lia].
  pose proof (Byte.to_N_bounded b). lia.
Qed.

Lemma byteAt_lookup view i c b :
  0 <= i → i + 1 <= byteLength view → byteAt view i = c →
  Byte.of_N (Z.to_N c) = Some b → view !! Z.to_nat i = Some b.
Proof.
  intros Hi Hlen Hc Hb. unfold byteAt in Hc.
  destruct (view !! Z.to_nat i) as [b'|] eqn:Hl.
  - subst c. rewrite N2Z.id, Byte.of_to_N in Hb. exact Hb.
  - apply lookup_ge_None in Hl. unfold byteLength in Hlen. lia.
Qed.

Lemma u8_true_lookup view i v b :
  u8 view i v = Normal true → Byte.of_N (Z.to_N v) = Some b →
  view !! Z.to_nat i = Some b.
Proof.
  unfold u8. intros H Hb. destruct (getUint8 view i) as [x|] eqn:Hx; [|discriminate].
  pose proof (getUint8_normal _ _ _ Hx) as [Hi Hlen].
  rewrite getUint8_in_range in Hx by assumption. injection Hx as <-.
  simpl in H. injection H as H. apply Z.eqb_eq in H.
  exact (byteAt_lookup view i v b Hi Hlen H Hb).
Qed.

Lemma getUint16_value view i x :
  getUint16 view i = Normal x →
  (0 <= i ∧ i + 2 <= byteLength view) ∧
  x = byteAt view i * 256 + byteAt view (i + 1).
Proof.
  unfold getUint16. case_match eqn:Hg; [|discriminate]. intros [= <-].
  split; [lia|].
  apply (lor_shiftl_add _ _ 8); [lia|apply byteAt_range].
Qed.

Lemma getUint32_value view i x :
  getUint32 view i = Normal x →
  (0 <= i ∧ i + 4 <= byteLength view) ∧
  x = byteAt view i * 16777216 + byteAt view (i + 1) * 65536 +
      byteAt view (i + 2) * 256 + byteAt view (i + 3).
Proof.
  unfold getUint32. case_match eqn:Hg; [|discriminate]. intros [= <-].
  split; [lia|].
  pose proof (byteAt_range view (i + 1)). pose proof (byteAt_range view (i + 2)).
  pose proof (byteAt_range view (i + 3)).
  rewrite (lor_shiftl_add (byteAt view (i + 2)) _ 8) by lia.
  rewrite (lor_shiftl_add (byteAt view (i + 1)) _ 16) by lia.
  rewrite (lor_shiftl_add (byteAt view i) _ 24) by lia.
  lia.
Qed.

(** The two bytes behind a 16-bit word of known value. *)
Lemma u16_true_lookup view i v b0 b1 :
  u16 view i v = Normal true →
  Byte.of_N (Z.to_N (v / 256)) = Some b0 → Byte.of_N (Z.to_N (v mod 256)) = Some b1 →
  view !! Z.to_nat i = Some b0 ∧ view !! Z.to_nat (i + 1) = Some b1.
Proof.
  unfold u16. intros H Hb0 Hb1.
  destruct (getUint16 view i) as [x|] eqn:Hx; [|discriminate].
  simpl in H. injection H as H. apply Z.eqb_eq in H. subst x.
  apply getUint16_value in Hx as [[Hi Hlen] Hv].
  pose proof (byteAt_range view i). pose proof (byteAt_range view (i + 1)).
  split.
  - apply (byteAt_lookup view i (v / 256)); [lia|lia| |exact Hb0].
    apply (Z.div_unique v 256 _ (byteAt view (i + 1))); lia.
  - apply (byteAt_lookup view (i + 1) (v mod 256)); [lia|lia| |exact Hb1].
    apply (Z.mod_unique v 256 (byteAt view i)); lia.
Qed.

(** The four bytes behind a 32-bit word of known value. *)
Lemma getUint32_lookup view i v b0 b1 b2 b3 :
  getUint32 view i = Normal v →
  Byte.of_N (Z.to_N (v / 16777216)) = Some b0 →
  Byte.of_N (Z.to_N (v / 65536 mod 256)) = Some b1 →
  Byte.of_N (Z.to_N (v / 256 mod 256)) = Some b2 →
  Byte.of_N (Z.to_N (v mod 256)) = Some b3 →
  view !! Z.to_nat i = Some b0 ∧ view !! Z.to_nat (i + 1) = Some b1 ∧
  view !! Z.to_nat (i + 2) = Some b2 ∧ view !! Z.to_nat (i + 3) = Some b3.
Proof.
  intros Hx Hb0 Hb1 Hb2 Hb3.
  apply getUint32_value in Hx as [[Hi Hlen] Hv].
  pose proof (byteAt_range view i). pose proof (byteAt_range view (i + 1)).
  pose proof (byteAt_range view (i + 2)). pose proof (byteAt_range view (i + 3)).
  assert (Hq1 : v / 16777216 = byteAt view i).
  { symmetry. apply (Z.div_unique v 16777216 _
      (byteAt view (i + 1) * 65536 + byteAt view (i + 2) * 256 + byteAt view (i + 3))); lia. }
  assert (Hq2 : v / 65536 = byteAt view i * 256 + byteAt view (i + 1)).
  { symmetry. apply (Z.div_unique v 65536 _
      (byteAt view (i + 2) * 256 + byteAt view (i + 3))); lia. }
  assert (Hq3 : v / 256 =
                byteAt view i * 65536 + byteAt view (i + 1) * 256 + byteAt view (i + 2)).
  { symmetry. apply (Z.div_unique v 256 _ (byteAt view (i + 3))); lia. }
  repeat split.
  - apply (byteAt_lookup view i (v / 16777216)); [lia|lia|lia|exact Hb0].
  - apply (byteAt_lookup view (i + 1) (v / 65536 mod 256)); [lia|lia| |exact Hb1].
    rewrite Hq2. apply (Z.mod_unique _ 256 (byteAt view i)); lia.
  - apply (byteAt_lookup view (i + 2) (v / 256 mod 256)); [lia|lia| |exact Hb2].
    rewrite Hq3. apply (Z.mod_unique _ 256 (byteAt view i * 256 + byteAt view (i + 1))); lia.
  - apply (byteAt_lookup view (i + 3) (v mod 256)); [lia|lia| |exact Hb3].
    apply (Z.mod_unique v 256
             (byteAt view i * 65536 + byteAt view (i + 1) * 256 + byteAt view (i + 2))); lia.
Qed.

Lemma holdsAt_lookups (buffer : ArrayBuffer) (offset : nat) (bytes : list Byte.byte) :
  (∀ k b, bytes !! k = Some b → buffer !! (offset + k)%nat = Some b) →
  holdsAt buffer (offset, bytes).
Proof.
  unfold holdsAt. simpl. revert offset.
  induction bytes as [|b bytes IH]; intros offset H; [apply take_0|].
  assert (Hb : buffer !! offset = Some b) by (rewrite <- (Nat.add_0_r offset); apply H; reflexivity).
  rewrite (drop_S _ _ _ Hb). simpl. f_equal.
  apply IH. intros k b' Hk. replace (S offset + k)%nat with (offset + S k)%nat by lia.
  apply H. exact Hk.
Qed.

Lemma orC_true (a b : completion bool) :
  a ||| b = Normal true → a = Normal true ∨ b = Normal true.
Proof. destruct a as [[|]|e]; simpl; intros H; try discriminate; auto. Qed.

Lemma ftypBrand_true_inv view brandA brandB :
  ftypBrand view brandA brandB = Normal true →
  getUint32 view 4 = Normal 0x66747970 ∧
  (getUint32 view 8 = Normal brandA ∨ getUint32 view 8 = Normal brandB ∨
   getUint32 view 12 = Normal brandA ∨ getUint32 view 12 = Normal brandB).
Proof.
  unfold ftypBrand. intros H.
  destruct (12 <=? byteLength view); [|discriminate].
  destruct (getUint32 view 4) as [m|]; simpl in H; [|discriminate].
  destruct (m =? 1718909296) eqn:Hm; [apply Z.eqb_eq in Hm; subst m|discriminate].
  destruct (getUint32 view 8) as [b1|]; simpl in H; [|discriminate].
  destruct (getUint32 view 12) as [b2|]; simpl in H; [|discriminate].
  split; [reflexivity|]. injection H as H.
  rewrite !orb_true_iff, !Z.eqb_eq in H.
  destruct H as [[[->| ->]| ->]| ->]; auto.
Qed.

(** The check behind each answer of the sniffer. *)
Lemma sniff_origin view r :
  sniff view = Normal r →
  (r = "jpg" ∧ len_ge view 2 &&& u8 view 0 0xFF &&& u8 view 1 0xD8 = Normal true) ∨
  (r = "png" ∧
   len_ge view 8 &&& u8 view 0 0x89 &&& u8 view 1 0x50 &&& u8 view 2 0x4E
     &&& u8 view 3 0x47 &&& u8 view 4 0x0D &&& u8 view 5 0x0A
     &&& u8 view 6 0x1A &&& u8 view 7 0x0A = Normal true) ∨
  (r = "gif" ∧
   len_ge view 6 &&&
     ((u8 view 0 0x47 &&& u8 view 1 0x49 &&& u8 view 2 0x46) |||
      (u8 view 0 0x47 &&& u8 view 1 0x49 &&& u8 view 2 0x66)) = Normal true) ∨
  (r = "bmp" ∧ len_ge view 2 &&& u8 view 0 0x42 &&& u8 view 1 0x4D = Normal true) ∨
  (r = "webp" ∧
   len_ge view 12 &&& u8 view 0 0x52 &&& u8 view 1 0x49 &&& u8 view 2 0x46
     &&& u8 view 3 0x46 &&& u8 view 8 0x57 &&& u8 view 9 0x45
     &&& u8 view 10 0x42 &&& u8 view 11 0x50 = Normal true) ∨
  (r = "avif" ∧ ftypBrand view 0x61766966 0x61766973 = Normal true) ∨
  (r = "ico" ∧ len_ge view 6 &&& u16 view 0 0 &&& u16 view 2 1 = Normal true) ∨
  (r = "tiff" ∧
   len_ge view 4 &&&
     ((u16 view 0 0x4D4D &&& u16 view 2 42) |||
      (u16 view 0 0x4949 &&& u16 view 2 42)) = Normal true) ∨
  (r = "heic" ∧ ftypBrand view 0x68656963 0x68656966 = Normal true) ∨
  r = "unknown".
Proof.
  unfold sniff. intros H.
  apply bind_bool_inv in H as [[Hjpg H]|[_ H]].
  { rewrite jpegResult_jpg in H. injection H as <-. left. split; [reflexivity|exact Hjpg]. }
  right.
  do 8 (apply if_return_inv in H as [[Hc ->]|[_ H]];
        [left; split; [reflexivity|exact Hc]|right]).
  congruence.
Qed.

Ltac chunk_lookups :=
  apply holdsAt_lookups; intros k b Hk;
  repeat (destruct k as [|k]; [injection Hk as <-; cbn; eassumption|]);
  discriminate Hk.

Ltac split_andC H :=
  repeat match type of H with
  | _ &&& _ = Normal true =>
      let H' := fresh "Hc" in apply andC_true in H as [H H']
  end.

Ltac bytes_of_u8 :=
  repeat match goal with
  | H : u8 _ _ _ = Normal true |- _ =>
      eapply u8_true_lookup in H; [|reflexivity]; cbn in H
  end.

Lemma detect_backed (buffer : ArrayBuffer) (tag : string) :
  detectImageTypeByMagicNumber buffer = Normal tag →
  tag = "unknown" ∨ hasSignature buffer tag.
Proof.
  unfold detectImageTypeByMagicNumber. intros H.
  destruct (byteLength buffer =? 0); [left; simpl in H; congruence|].
  destruct (sniff buffer) as [r|e] eqn:Hs; simpl in H; [|left; congruence].
  injection H as <-.
  apply sniff_origin in Hs.
  destruct Hs as [[-> Hc]|[[-> Hc]|[[-> Hc]|[[-> Hc]|[[-> Hc]|[[-> Hc]|[[-> Hc]|[[-> Hc]|[[-> Hc]| ->]]]]]]]]];
    [right..|left; reflexivity]; unfold hasSignature.
  - (* jpg *)
    split_andC Hc. bytes_of_u8.
    eexists. split; [apply list_elem_of_here|]. repeat constructor. chunk_lookups.
  - (* png *)
    split_andC Hc. bytes_of_u8.
    eexists. split; [apply list_elem_of_here|]. repeat constructor. chunk_lookups.
  - (* gif *)
    apply andC_true in Hc as [_ Hc]. apply orC_true in Hc as [Hc|Hc];
      split_andC Hc; bytes_of_u8.
    + eexists. split; [apply list_elem_of_here|]. repeat constructor. chunk_lookups.
    + eexists. split; [apply list_elem_of_further, list_elem_of_here|].
      repeat constructor. chunk_lookups.
  - (* bmp *)
    split_andC Hc. bytes_of_u8.
    eexists. split; [apply list_elem_of_here|]. repeat constructor. chunk_lookups.
  - (* webp *)
    split_andC Hc. bytes_of_u8.
    eexists. split; [apply list_elem_of_here|]. repeat constructor; chunk_lookups.
  - (* avif *)
    apply ftypBrand_true_inv in Hc as [Hbox Hbrand].
    eapply getUint32_lookup in Hbox; [|reflexivity..].
    cbn in Hbox. destruct Hbox as (? & ? & ? & ?).
    destruct Hbrand as [Hb|[Hb|[Hb|Hb]]];
      (eapply getUint32_lookup in Hb; [|reflexivity..]);
      cbn in Hb; destruct Hb as (? & ? & ? & ?).
    + eexists. split; [apply list_elem_of_here|]. repeat constructor; chunk_lookups.
    + eexists. split; [do 2 apply list_elem_of_further; apply list_elem_of_here|].
      repeat constructor; chunk_lookups.
    + eexists. split; [apply list_elem_of_further, list_elem_of_here|].
      repeat constructor; chunk_lookups.
    + eexists. split; [do 3 apply list_elem_of_further; apply list_elem_of_here|].
      repeat constructor; chunk_lookups.
  - (* ico *)
    split_andC Hc.
    repeat match goal with
    | H : u16 _ _ _ = Normal true |- _ =>
        eapply u16_true_lookup in H; [|reflexivity..]; cbn in H;
        destruct H as [? ?]
    end.
    eexists. split; [apply list_elem_of_here|]. repeat constructor. chunk_lookups.
  - (* tiff *)
    apply andC_true in Hc as [_ Hc]. apply orC_true in Hc as [Hc|Hc];
      split_andC Hc;
      repeat match goal with
      | H : u16 _ _ _ = Normal true |- _ =>
          eapply u16_true_lookup in H; [|reflexivity..]; cbn in H;
          destruct H as [? ?]
      end.
    + eexists. split; [apply list_elem_of_here|]. repeat constructor. chunk_lookups.
    + eexists. split; [apply list_elem_of_further, list_elem_of_here|].
      repeat constructor. chunk_lookups.
  - (* heic *)
    apply ftypBrand_true_inv in Hc as [Hbox Hbrand].
    eapply getUint32_lookup in Hbox; [|reflexivity..].
    cbn in Hbox. destruct Hbox as (? & ? & ? & ?).
    destruct Hbrand as [Hb|[Hb|[Hb|Hb]]];
      (eapply getUint32_lookup in Hb; [|reflexivity..]);
      cbn in Hb; destruct Hb as (? & ? & ? & ?).
    + eexists. split; [apply list_elem_of_here|]. repeat constructor; chunk_lookups.
    + eexists. split; [do 2 apply list_elem_of_further; apply list_elem_of_here|].
      repeat constructor; chunk_lookups.
    + eexists. split; [apply list_elem_of_further, list_elem_of_here|].
      repeat constructor; chunk_lookups.
    + eexists. split; [do 3 apply list_elem_of_further; apply list_elem_of_here|].
      repeat constructor; chunk_lookups.
Qed.

(** ** X1 *)

(** X1. Every answer of the sniffer other than ['unknown'] is backed by the
    bytes of the buffer: one of the signatures of the answered tag stands in
    the buffer, each of its chunks at its offset. *)
Theorem detect_sound (buffer : ArrayBuffer) (tag : string) :
  detectImageTypeByMagicNumber buffer = Normal tag →
  tag = "unknown" ∨ hasSignature buffer tag.
Proof. apply detect_backed. Qed.

Lemma detect_sound_witness :
  detectImageTypeByMagicNumber
    [Byte.x00; Byte.x00; Byte.x00; Byte.x01; Byte.x00; Byte.x00] = Normal "ico" ∧
  ("ico" = "unknown" ∨
   hasSignature [Byte.x00; Byte.x00; Byte.x00; Byte.x01; Byte.x00; Byte.x00] "ico").
Proof.
  split; [reflexivity|].
  apply (detect_sound [Byte.x00; Byte.x00; Byte.x00; Byte.x01; Byte.x00; Byte.x00] "ico").
  reflexivity.
Defined.

Lemma holdsAt_lookup (buffer : list Byte.byte) (offset k : nat) bytes b :
  holdsAt buffer (offset, bytes) → bytes !! k = Some b →
  buffer !! (offset + k)%nat = Some b.
Proof.
  unfold holdsAt. simpl. intros H Hk.
  rewrite <- lookup_drop. rewrite <- H in Hk.
  apply lookup_take_Some in Hk. tauto.
Qed.

(** ** X2 *)

(** X2. The words of the ICO and TIFF checks are read big-endian: a buffer
    that starts with 00 00 01 00, the header of an ICO file, is never answered
    with ['ico'], and a buffer that starts with 49 49 2A 00, the header of a
    little-endian TIFF file, is never answered with ['tiff']. *)
Theorem detect_misses_little_endian_headers (rest : ArrayBuffer) :
  detectImageTypeByMagicNumber
    ([Byte.x00; Byte.x00; Byte.x01; Byte.x00] ++ rest) ≠ Normal "ico" ∧
  detectImageTypeByMagicNumber
    ([Byte.x49; Byte.x49; Byte.x2a; Byte.x00] ++ rest) ≠ Normal "tiff".
Proof.
  split; intros H; apply detect_backed in H as [H|(alt & Halt & Hall)];
    try discriminate H.
  - apply list_elem_of_singleton in Halt. subst alt.
    apply Forall_inv in Hall.
    pose proof (holdsAt_lookup _ 0 2 _ Byte.x00 Hall eq_refl) as Hb.
    discriminate Hb.
  - cbn in Halt. apply elem_of_cons in Halt as [->|Halt];
      [|apply list_elem_of_singleton in Halt; subst alt];
      apply Forall_inv in Hall.
    + pose proof (holdsAt_lookup _ 0 0 _ Byte.x4d Hall eq_refl) as Hb. discriminate Hb.
    + pose proof (holdsAt_lookup _ 0 2 _ Byte.x00 Hall eq_refl) as Hb. discriminate Hb.
Qed.

Lemma leb_length_true view n : n <= byteLength view → (n <=? byteLength view) = true.
Proof. intros H. apply Z.leb_le, H. Qed.

Lemma u8_value view i v :
  0 <= i → i + 1 <= byteLength view → u8 view i v = Normal (byteAt view i =? v).
Proof. intros Hi Hlen. unfold u8. rewrite getUint8_in_range by assumption. reflexivity. Qed.

Lemma u16_value view i v :
  0 <= i → i + 2 <= byteLength view →
  u16 view i v = Normal (byteAt view i * 256 + byteAt view (i + 1) =? v).
Proof.
  intros Hi Hlen. unfold u16.
  destruct (getUint16 view i) as [x|e] eqn:Hx.
  - apply getUint16_value in Hx as [_ ->]. reflexivity.
  - unfold getUint16 in Hx. rewrite andb_true_intro in Hx; [discriminate|].
    split; apply Z.leb_le; lia.
Qed.

Lemma getUint32_in_range view i :
  0 <= i → i + 4 <= byteLength view →
  getUint32 view i =
  Normal (byteAt view i * 16777216 + byteAt view (i + 1) * 65536 +
          byteAt view (i + 2) * 256 + byteAt view (i + 3)).
Proof.
  intros Hi Hlen. destruct (getUint32 view i) as [x|e] eqn:Hx.
  - apply getUint32_value in Hx as [_ ->]. reflexivity.
  - unfold getUint32 in Hx. rewrite andb_true_intro in Hx; [discriminate|].
    split; apply Z.leb_le; lia.
Qed.

(** Two buffers of at least 16 bytes with the same first 16 bytes get the
    same answer from the checks. *)
Lemma sniff_first_bytes (v1 v2 : ArrayBuffer) :
  16 <= byteLength v1 → 16 <= byteLength v2 →
  (∀ i, 0 <= i < 16 → byteAt v1 i = byteAt v2 i) →
  sniff v1 = sniff v2.
Proof.
  intros H1 H2 Hsame.
  unfold sniff, ftypBrand, len_ge. rewrite !jpegResult_jpg.
  rewrite !(leb_length_true v1), !(leb_length_true v2) by lia.
  rewrite !(u8_value v1), !(u8_value v2) by lia.
  rewrite !(u16_value v1), !(u16_value v2) by lia.
  rewrite !(getUint32_in_range v1), !(getUint32_in_range v2) by lia.
  cbn [Z.add Pos.add Pos.succ].
  rewrite !Hsame by lia. reflexivity.
Qed.

Lemma byteAt_take (buffer : list Byte.byte) (n : nat) i :
  0 <= i < Z.of_nat n → byteAt (take n buffer) i = byteAt buffer i.
Proof.
  intros Hi. unfold byteAt, ArrayBuffer. rewrite lookup_take_lt by lia. reflexivity.
Qed.

(** ** X3 *)

(** X3. The answer of the sniffer depends on the first sixteen bytes only:
    the answer for a buffer is the answer for its first 16 bytes.  The JPEG
    check does read the last two bytes of a buffer that starts with FF D8,
    but both outcomes of that test return ['jpg']. *)
Theorem detect_reads_first_16_bytes (buffer : ArrayBuffer) :
  detectImageTypeByMagicNumber (take 16 buffer) = detectImageTypeByMagicNumber buffer.
Proof.
  destruct (Z.le_gt_cases (byteLength buffer) 16) as [Hshort|Hlong].
  - rewrite take_ge; [reflexivity|]. unfold byteLength in Hshort. lia.
  - assert (Hlen : byteLength (take 16 buffer) = 16).
    { unfold byteLength in *. rewrite length_take. lia. }
    unfold detectImageTypeByMagicNumber.
    rewrite Hlen. replace (byteLength buffer =? 0) with false by lia.
    change (16 =? 0) with false. cbv iota.
    rewrite (sniff_first_bytes (take 16 buffer) buffer); [reflexivity|lia|lia|].
    intros i Hi. apply byteAt_take. lia.
Qed.

Lemma u8_false view i v w :
  u8 view i v = Normal true → v ≠ w → u8 view i w = Normal false.
Proof.
  unfold u8. destruct (getUint8 view i) as [x|]; simpl; [|discriminate].
  intros [= H] Hne. apply Z.eqb_eq in H. subst x. f_equal. apply Z.eqb_neq, Hne.
Qed.

Lemma validateBody_large view type :
  validateBody view type = Normal true → 100 <= byteLength view.
Proof.
  unfold validateBody. intros H.
  repeat match type of H with
  | (if ?c then _ else _) = _ => destruct c
  end;
  repeat (apply andC_true in H as [H _]); apply len_ge_true in H; exact H.
Qed.

(** ** X4 *)

(** X4. The validator never throws, and it accepts a buffer only when the
    buffer has at least 100 bytes, whatever the type it is asked about. *)
Theorem validate_accepts_only_large (buffer : ArrayBuffer) (type : string) :
  ∃ valid, validateImageData buffer type = Normal valid ∧
           (valid = true → 100 <= byteLength buffer).
Proof.
  unfold validateImageData.
  destruct (byteLength buffer =? 0); simpl.
  - exists false. split; [reflexivity|discriminate].
  - destruct (validateBody buffer type) as [[|]|e] eqn:Hv; simpl.
    + exists true. split; [reflexivity|]. intros _. exact (validateBody_large _ _ Hv).
    + exists false. split; [reflexivity|discriminate].
    + exists false. split; [reflexivity|discriminate].
Qed.

Lemma len_ge_value view n : len_ge view n = Normal (n <=? byteLength view).
Proof. reflexivity. Qed.

(** ** X5 *)

(** X5. The validator agrees with the sniffer: asked about the tag the
    sniffer gives a buffer, it accepts the buffer exactly when the buffer has
    at least 100 bytes. *)
Theorem validate_accepts_sniffed_type (buffer : ArrayBuffer) (tag : string) :
  detectImageTypeByMagicNumber buffer = Normal tag →
  validateImageData buffer tag = Normal (100 <=? byteLength buffer).
Proof.
  unfold detectImageTypeByMagicNumber, validateImageData. intros H.
  destruct (Z.eqb_spec (byteLength buffer) 0) as [Hz|Hnz].
  { rewrite Hz. reflexivity. }
  destruct (sniff buffer) as [r|e] eqn:Hs; simpl in H; injection H as <-;
    [|reflexivity].
  apply sniff_origin in Hs.
  destruct Hs as [[-> Hc]|[[-> Hc]|[[-> Hc]|[[-> Hc]|[[-> Hc]|[[-> Hc]|[[-> Hc]|[[-> Hc]|[[-> Hc]| ->]]]]]]]]];
    try reflexivity; unfold validateBody; cbn [String.eqb Ascii.eqb Bool.eqb];
    cbv iota; unfold minSize.
  all: try (apply andC_true in Hc as [_ Hc]; rewrite Hc, len_ge_value;
            destruct (100 <=? byteLength buffer); reflexivity).
  all: split_andC Hc;
    repeat match goal with
    | H : ?c = Normal true |- context [?c] => rewrite H
    end;
    rewrite len_ge_value; destruct (100 <=? byteLength buffer); reflexivity.
Qed.

Lemma validate_accepts_sniffed_type_witness :
  detectImageTypeByMagicNumber [Byte.x42; Byte.x4d; Byte.x00] = Normal "bmp" ∧
  validateImageData [Byte.x42; Byte.x4d; Byte.x00] "bmp" = Normal false.
Proof.
  split; [reflexivity|].
  apply (validate_accepts_sniffed_type [Byte.x42; Byte.x4d; Byte.x00] "bmp").
  reflexivity.
Defined.

Lemma andC_false_l (b : completion bool) : Normal false &&& b = Normal false.
Proof. reflexivity. Qed.

Lemma andC_true_l (b : completion bool) : Normal true &&& b = b.
Proof. destruct b as [[|]|]; reflexivity. Qed.

Lemma orC_false_l (b : completion bool) : Normal false ||| b = b.
Proof. destruct b as [[|]|]; reflexivity. Qed.

Lemma detect_nonempty (buffer : ArrayBuffer) (r : string) :
  0 < byteLength buffer → sniff buffer = Normal r →
  detectImageTypeByMagicNumber buffer = Normal r.
Proof.
  intros Hlen Hs. unfold detectImageTypeByMagicNumber.
  replace (byteLength buffer =? 0) with false by lia. rewrite Hs. reflexivity.
Qed.

(** ** X6 *)

(** X6. The first bytes decide for GIF, BMP and WebP whatever follows: a
    buffer of at least six bytes that starts with [GIF] or [GIf] is answered
    with ['gif'], a buffer that starts with [BM] with ['bmp'], and a buffer
    with [RIFF] at offset 0 and [WEBP] at offset 8 with ['webp']. *)
Theorem detect_gif_bmp_webp :
  (∀ third rest,
     (third = Byte.x46 ∨ third = Byte.x66) → (3 <= length rest)%nat →
     detectImageTypeByMagicNumber (Byte.x47 :: Byte.x49 :: third :: rest) = Normal "gif") ∧
  (∀ rest, detectImageTypeByMagicNumber (Byte.x42 :: Byte.x4d :: rest) = Normal "bmp") ∧
  (∀ s0 s1 s2 s3 rest,
     detectImageTypeByMagicNumber
       ([Byte.x52; Byte.x49; Byte.x46; Byte.x46] ++ [s0; s1; s2; s3] ++
        [Byte.x57; Byte.x45; Byte.x42; Byte.x50] ++ rest) = Normal "webp").
Proof.
  split; [|split].
  - intros third rest Hthird Hrest.
    set (view := Byte.x47 :: Byte.x49 :: third :: rest).
    assert (Hlen : 6 <= byteLength view) by (unfold byteLength; subst view; cbn [length]; lia).
    apply detect_nonempty; [lia|]. unfold sniff.
    rewrite (len_ge_intro view 2), (len_ge_intro view 6) by lia.
    rewrite (u8_at view 0 Byte.x47 255), (u8_at view 0 Byte.x47 137),
      (u8_at view 0 Byte.x47 71), (u8_at view 1 Byte.x49 73),
      (u8_at view 2 third 70), (u8_at view 2 third 102) by (lia || reflexivity).
    unfold len_ge. destruct (8 <=? byteLength view);
      destruct Hthird as [-> | ->]; reflexivity.
  - intros rest.
    set (view := Byte.x42 :: Byte.x4d :: rest).
    assert (Hlen : 2 <= byteLength view) by (unfold byteLength; subst view; cbn [length]; lia).
    apply detect_nonempty; [lia|]. unfold sniff.
    rewrite (len_ge_intro view 2) by lia.
    rewrite (u8_at view 0 Byte.x42 255), (u8_at view 0 Byte.x42 137),
      (u8_at view 0 Byte.x42 71), (u8_at view 0 Byte.x42 66),
      (u8_at view 1 Byte.x4d 77) by (lia || reflexivity).
    change (Z.of_N (Byte.to_N Byte.x42) =? 255) with false.
    change (Z.of_N (Byte.to_N Byte.x42) =? 137) with false.
    change (Z.of_N (Byte.to_N Byte.x42) =? 71) with false.
    change (Z.of_N (Byte.to_N Byte.x42) =? 66) with true.
    change (Z.of_N (Byte.to_N Byte.x4d) =? 77) with true.
    rewrite !andC_true_l, !andC_false_l.
    unfold len_ge. destruct (8 <=? byteLength view), (6 <=? byteLength view); reflexivity.
  - intros s0 s1 s2 s3 rest.
    set (view := [Byte.x52; Byte.x49; Byte.x46; Byte.x46] ++ [s0; s1; s2; s3] ++
                 [Byte.x57; Byte.x45; Byte.x42; Byte.x50] ++ rest).
    assert (Hlen : 12 <= byteLength view).
    { unfold byteLength. subst view. rewrite !length_app. cbn [length]. lia. }
    apply detect_nonempty; [lia|]. unfold sniff.
    rewrite (len_ge_intro view 2), (len_ge_intro view 8), (len_ge_intro view 6),
      (len_ge_intro view 12) by lia.
    rewrite (u8_at view 0 Byte.x52 255), (u8_at view 0 Byte.x52 137),
      (u8_at view 0 Byte.x52 71), (u8_at view 0 Byte.x52 66), (u8_at view 0 Byte.x52 82),
      (u8_at view 1 Byte.x49 73), (u8_at view 2 Byte.x46 70), (u8_at view 3 Byte.x46 70),
      (u8_at view 8 Byte.x57 87), (u8_at view 9 Byte.x45 69), (u8_at view 10 Byte.x42 66),
      (u8_at view 11 Byte.x50 80) by (lia || reflexivity).
    reflexivity.
Qed.

(** ** X7 *)

(** X7. What the validator accepts as JPEG, GIF or BMP the sniffer answers
    with the same tag. *)
Theorem validate_implies_sniffed (buffer : ArrayBuffer) (type : string) :
  type ∈ ["jpg"; "gif"; "bmp"] →
  validateImageData buffer type = Normal true →
  detectImageTypeByMagicNumber buffer = Normal type.
Proof.
  intros Htype H. unfold validateImageData in H.
  destruct (byteLength buffer =? 0) eqn:Hz; [discriminate H|].
  destruct (validateBody buffer type) as [[|]|] eqn:Hv; try discriminate H. clear H.
  pose proof (validateBody_large _ _ Hv) as Hlen.
  apply detect_nonempty; [lia|]. unfold sniff.
  rewrite (len_ge_intro buffer 2), (len_ge_intro buffer 8), (len_ge_intro buffer 6) by lia.
  rewrite !andC_true_l.
  repeat (apply elem_of_cons in Htype as [->|Htype]); [| | |inversion Htype];
    unfold validateBody in Hv; cbn [String.eqb Ascii.eqb Bool.eqb] in Hv; cbv iota in Hv.
  - split_andC Hv. rewrite Hc0, Hc. simpl. apply jpegResult_jpg.
  - apply andC_true in Hv as [_ Hv].
    assert (H0 : u8 buffer 0 71 = Normal true).
    { apply orC_true in Hv as [Hv|Hv]; split_andC Hv; assumption. }
    rewrite (u8_false buffer 0 71 255 H0), (u8_false buffer 0 71 137 H0) by discriminate.
    rewrite !andC_false_l. rewrite Hv. reflexivity.
  - split_andC Hv.
    rewrite (u8_false buffer 0 66 255 Hc0), (u8_false buffer 0 66 137 Hc0),
      (u8_false buffer 0 66 71 Hc0) by discriminate.
    rewrite !andC_false_l, Hc0, Hc. reflexivity.
Qed.

Lemma validate_implies_sniffed_witness :
  validateImageData (Byte.x42 :: Byte.x4d :: repeat Byte.x00 98) "bmp" = Normal true ∧
  detectImageTypeByMagicNumber (Byte.x42 :: Byte.x4d :: repeat Byte.x00 98) = Normal "bmp".
Proof.
  split; [reflexivity|].
  apply (validate_implies_sniffed (Byte.x42 :: Byte.x4d :: repeat Byte.x00 98) "bmp").
  - do 2 apply list_elem_of_further. apply list_elem_of_here.
  - reflexivity.
Defined.

End SignatureFacts.

(** ** The classifier *)

Section ClassifierRangeFacts.
Import JsString Classifier Background Tags.

Ltac in_list :=
  repeat first [apply list_elem_of_here | apply list_elem_of_further].

Lemma arrayIncludes_elem (l : list string) (x : string) :
  arrayIncludes l x = true → x ∈ l.
Proof.
  unfold arrayIncludes. induction l as [|y l IH]; simpl; [discriminate|].
  destruct (String.eqb_spec x y) as [->|_]; simpl; intros H.
  - apply list_elem_of_here.
  - apply list_elem_of_further, IH, H.
Qed.

Lemma keywordScan_range (urlLower tag : string) :
  keywordScan urlLower = Some tag → tag ∈ urlTags.
Proof.
  unfold keywordScan, urlTags.
  repeat match goal with
  | |- (if ?c then _ else _) = _ → _ => destruct c; [intros [= <-]; in_list|]
  end.
  discriminate.
Qed.

Lemma extensionResult_range (extension tag : string) :
  extensionResult extension = Some tag → tag ∈ urlTags.
Proof.
  unfold extensionResult.
  destruct (String.eqb _ "jpeg"); [intros [= <-]; unfold urlTags; in_list|].
  destruct (arrayIncludes supportedExtensions _) eqn:Hin; [|discriminate].
  intros [= <-]. apply arrayIncludes_elem in Hin.
  unfold supportedExtensions in Hin. unfold urlTags.
  repeat (apply elem_of_cons in Hin as [->|Hin]; [in_list|]).
  inversion Hin.
Qed.

Lemma paramHints_range (urlParams : option string) (tag : string) :
  paramHints urlParams = Some tag → tag ∈ urlTags.
Proof.
  unfold paramHints, urlTags.
  destruct urlParams as [[|c p]|]; [discriminate| |discriminate].
  repeat match goal with
  | |- (if ?c then _ else _) = _ → _ => destruct c; [intros [= <-]; in_list|]
  end.
  discriminate.
Qed.

Lemma pathAndMimeHints_range (urlLower : string) : pathAndMimeHints urlLower ∈ urlTags.
Proof.
  unfold pathAndMimeHints, urlTags.
  repeat match goal with
  | |- (if ?c then _ else _) ∈ _ => destruct c; [in_list|]
  end.
  in_list.
Qed.

(** ** X8 *)

(** X8. For a URL that is not a data URI the classifier answers with one of
    thirteen tags: jpg, png, svg, webp, gif, bmp, ico, tiff, tif, apng, avif,
    heic or unknown; in particular never with [jpeg]. *)
Theorem getImageType_range (url : string) :
  startsWith "data:image/" url = false → getImageType url ∈ urlTags.
Proof.
  intros Hdata. unfold getImageType. rewrite Hdata. cbv zeta.
  match goal with
  | |- match ?early with _ => _ end ∈ _ => destruct early as [tag|] eqn:Hearly
  end.
  - destruct (String.eqb _ EmptyString) in Hearly.
    + exact (keywordScan_range _ _ Hearly).
    + exact (extensionResult_range _ _ Hearly).
  - destruct (paramHints _) as [tag|] eqn:Hparams.
    + exact (paramHints_range _ _ Hparams).
    + apply pathAndMimeHints_range.
Qed.

Lemma getImageType_range_witness :
  startsWith "data:image/" "https://site.com/a/b?type=HEIF" = false ∧
  getImageType "https://site.com/a/b?type=HEIF" ∈ urlTags.
Proof.
  split; [reflexivity|].
  apply (getImageType_range "https://site.com/a/b?type=HEIF"). reflexivity.
Defined.

Lemma toLowerChar_idempotent (c : ascii) : toLowerChar (toLowerChar c) = toLowerChar c.
Proof. destruct c as [[] [] [] [] [] [] [] []]; reflexivity. Qed.

Lemma toLowerCase_idempotent (s : string) : toLowerCase (toLowerCase s) = toLowerCase s.
Proof.
  induction s as [|c s IH]; simpl; [reflexivity|].
  rewrite toLowerChar_idempotent, IH. reflexivity.
Qed.

(** ** X9 *)

(** X9. An extension decides before every other hint, whatever its case: for
    a URL that is not a data URI and whose last dot-delimited segment, after
    the query and the fragment are cut off, is a supported extension in lower
    case, the classifier answers with that extension in lower case, and with
    [jpg] for [jpeg]. *)
Theorem extension_decides (url extension : string) :
  startsWith "data:image/" url = false →
  matchExtension (cleanUrlOf url) = Some extension →
  arrayIncludes ("jpeg" :: supportedExtensions) (toLowerCase extension) = true →
  getImageType url =
    if String.eqb (toLowerCase extension) "jpeg" then "jpg" else toLowerCase extension.
Proof.
  intros Hdata Hext Hsupported. unfold getImageType. rewrite Hdata, Hext. cbv zeta.
  assert (Hne : String.eqb (toLowerCase extension) EmptyString = false).
  { apply arrayIncludes_elem in Hsupported.
    destruct (toLowerCase extension); [|reflexivity].
    repeat (apply elem_of_cons in Hsupported as [Hs|Hsupported]; [discriminate Hs|]).
    inversion Hsupported. }
  rewrite Hne. unfold extensionResult. rewrite toLowerCase_idempotent.
  destruct (String.eqb_spec (toLowerCase extension) "jpeg") as [Hj|Hj]; [reflexivity|].
  unfold arrayIncludes in Hsupported. cbn [existsb] in Hsupported.
  rewrite (proj2 (String.eqb_neq _ _) Hj) in Hsupported. cbn [orb] in Hsupported.
  unfold arrayIncludes. rewrite Hsupported. reflexivity.
Qed.

Lemma extension_decides_witness :
  startsWith "data:image/" "https://site.com/png/img.JPEG?x=1" = false ∧
  matchExtension (cleanUrlOf "https://site.com/png/img.JPEG?x=1") = Some "JPEG" ∧
  getImageType "https://site.com/png/img.JPEG?x=1" = "jpg".
Proof.
  split; [reflexivity|]. split; [reflexivity|].
  apply (extension_decides "https://site.com/png/img.JPEG?x=1" "JPEG"); reflexivity.
Defined.

Lemma includes_cons_r (needle : string) (c : ascii) (s : string) :
  includes needle s = true → includes needle (String c s) = true.
Proof. intros H. cbn [includes]. rewrite H. apply orb_true_r. Qed.

(** A string that holds [needle] with one character before it holds [needle]. *)
Lemma includes_tail (c : ascii) (needle s : string) :
  includes (String c needle) s = true → includes needle s = true.
Proof.
  induction s as [|a s IH]; [discriminate|].
  cbn [includes startsWith]. intros H. apply orb_true_iff in H as [H|H].
  - apply andb_true_iff in H as [_ H]. apply includes_cons_r.
    destruct s; cbn [includes]; rewrite H; reflexivity.
  - apply includes_cons_r, IH, H.
Qed.

(** ** X10 *)

(** X10. The tags [apng] and [tif] are answered from an extension only: when
    the classifier answers a URL that is not a data URI with one of them, the
    URL has that extension, up to case.  The keyword scan never gives them,
    since a URL that holds [apng] holds [png]. *)
Theorem apng_tif_from_extension_only (url : string) :
  startsWith "data:image/" url = false →
  getImageType url = "apng" ∨ getImageType url = "tif" →
  ∃ extension,
    matchExtension (cleanUrlOf url) = Some extension ∧
    toLowerCase extension = getImageType url.
Proof.
  intros Hdata. unfold getImageType. rewrite Hdata. cbv zeta.
  destruct (matchExtension (cleanUrlOf url)) as [extension|] eqn:Hext.
  - destruct (String.eqb (toLowerCase extension) EmptyString) eqn:Hempty.
    + (* the keyword scan, the query hints and the path hints give neither *)
      intros H. exfalso. revert H.
      unfold keywordScan, paramHints, pathAndMimeHints.
      destruct (includes "apng" (toLowerCase url)) eqn:Hapng.
      { rewrite (includes_tail "a" "png" _ Hapng).
        repeat match goal with
        | |- context [if ?c then _ else _] => destruct c
        end; intros [H|H]; discriminate H. }
      destruct (split "?" url !! 1%nat) as [[|c p]|];
      repeat match goal with
      | |- context [if ?c then _ else _] => destruct c
      end; intros [H|H]; discriminate H.
    + unfold extensionResult. rewrite toLowerCase_idempotent.
      destruct (String.eqb (toLowerCase extension) "jpeg") eqn:Hjpeg.
      { intros [H|H]; discriminate H. }
      destruct (arrayIncludes supportedExtensions (toLowerCase extension)).
      { intros _. exists extension. split; reflexivity. }
      intros H. exfalso. revert H. unfold paramHints, pathAndMimeHints.
      destruct (split "?" url !! 1%nat) as [[|c p]|];
      repeat match goal with
      | |- context [if ?c then _ else _] => destruct c
      end; intros [H|H]; discriminate H.
  - change (String.eqb EmptyString EmptyString) with true. cbv iota.
    intros H. exfalso. revert H.
    unfold keywordScan, paramHints, pathAndMimeHints.
    destruct (includes "apng" (toLowerCase url)) eqn:Hapng.
    { rewrite (includes_tail "a" "png" _ Hapng).
      repeat match goal with
      | |- context [if ?c then _ else _] => destruct c
      end; intros [H|H]; discriminate H. }
    destruct (split "?" url !! 1%nat) as [[|c p]|];
    repeat match goal with
    | |- context [if ?c then _ else _] => destruct c
    end; intros [H|H]; discriminate H.
Qed.

Lemma apng_tif_from_extension_only_witness :
  startsWith "data:image/" "https://site.com/anim.APNG" = false ∧
  getImageType "https://site.com/anim.APNG" = "apng" ∧
  ∃ extension,
    matchExtension (cleanUrlOf "https://site.com/anim.APNG") = Some extension ∧
    toLowerCase extension = getImageType "https://site.com/anim.APNG".
Proof.
  split; [reflexivity|]. split; [reflexivity|].
  apply (apng_tif_from_extension_only "https://site.com/anim.APNG"); [reflexivity|].
  left. reflexivity.
Defined.

Lemma matchExtension_no_dot (s extension : string) :
  matchExtension s = Some extension → free "." extension.
Proof.
  induction s as [|c s IH]; [discriminate|]. cbn [matchExtension].
  destruct (Ascii.eqb c "." && negb (String.eqb s EmptyString) && negb (includes "." s))
    eqn:Hc; [|exact IH].
  intros [= <-]. apply andb_true_iff in Hc as [_ Hc].
  apply negb_true_iff in Hc. exact Hc.
Qed.

Lemma split_head_free (sep c : ascii) (s : string) :
  c = sep ∨ free c s → free c (default EmptyString (split sep s !! 0%nat)).
Proof.
  intros H. pose proof (split_pieces_free sep c s H) as Hall.
  destruct (split sep s) as [|h t]; [apply free_empty|].
  inversion Hall; assumption.
Qed.

(** ** X11 *)

(** X11. The extension [getExtensionFromUrl] returns holds no dot, no
    question mark and no hash sign; it is [null] for a URL in which no dot is
    followed by a last segment. *)
Theorem getExtensionFromUrl_clean (url : string) :
  match getExtensionFromUrl url with
  | Some extension => free "." extension ∧ free "?" extension ∧ free "#" extension
  | None => matchExtension url = None
  end.
Proof.
  unfold getExtensionFromUrl.
  destruct (matchExtension url) as [e|] eqn:He; [|reflexivity].
  apply matchExtension_no_dot in He.
  split; [|split].
  - apply split_head_free. right. apply split_head_free. right. exact He.
  - apply split_head_free. right. apply split_head_free. left. reflexivity.
  - apply split_head_free. left. reflexivity.
Qed.

End ClassifierRangeFacts.

(** ** The network strategy and the refinement *)

Section RefinementFacts.
Import JsString Classifier Sniffer Network Svg SvgUrl Coordinator Refinement Tags.

Ltac in_tags :=
  repeat first [apply list_elem_of_here | apply list_elem_of_further].

Lemma detect_tag_range (buffer : ArrayBuffer) (tag : string) :
  detectImageTypeByMagicNumber buffer = Normal tag → tag ∈ fetchTags.
Proof.
  unfold detectImageTypeByMagicNumber. intros H.
  destruct (byteLength buffer =? 0); simpl in H;
    [injection H as <-; unfold fetchTags; in_tags|].
  destruct (sniff buffer) as [r|e] eqn:Hs; simpl in H; injection H as <-;
    [|unfold fetchTags; in_tags].
  apply sniff_cases in Hs as [->|[Hin _]]; [unfold fetchTags; in_tags|].
  unfold formatTags in Hin. unfold fetchTags.
  repeat (apply elem_of_cons in Hin as [->|Hin]; [in_tags|]).
  inversion Hin.
Qed.

Lemma opaqueResult_range (response : Response) (tag : string) :
  opaqueResult response = Normal tag → tag ∈ fetchTags.
Proof.
  unfold opaqueResult.
  destruct (contentType response) as [ct|]; [|discriminate].
  destruct (negb (String.eqb ct EmptyString) && startsWith "image/" ct); [|discriminate].
  destruct (matchImageSubtype ct) as [typeMatch|]; [|discriminate].
  destruct (String.eqb (toLowerCase typeMatch) "jpeg");
    [intros [= <-]; unfold fetchTags; in_tags|].
  destruct (arrayIncludes mimeSubtypes (toLowerCase typeMatch)) eqn:Hin; [|discriminate].
  intros [= <-]. apply arrayIncludes_elem in Hin.
  unfold mimeSubtypes in Hin. unfold fetchTags.
  repeat (apply elem_of_cons in Hin as [->|Hin]; [cbn; in_tags|]).
  inversion Hin.
Qed.

Lemma urlMimeScan_range (urlLower : string) : urlMimeScan urlLower ∈ fetchTags.
Proof.
  unfold urlMimeScan, fetchTags.
  repeat match goal with
  | |- (if ?c then _ else _) ∈ _ => destruct c; [in_tags|]
  end.
  in_tags.
Qed.

Lemma getImageTypeByFetch_tag (fetch : Fetch) (url : string) :
  ∃ tag, getImageTypeByFetch fetch url = Normal tag ∧ tag ∈ fetchTags.
Proof.
  unfold getImageTypeByFetch.
  destruct (tryConfigs fetch url fetchConfigs None) as [response|]; simpl;
    [|eauto using urlMimeScan_range].
  destruct (isOpaque response).
  - destruct (opaqueResult response) as [tag|e] eqn:Ho; simpl;
      eauto using urlMimeScan_range, opaqueResult_range.
  - destruct (arrayBuffer response) as [buffer|e]; simpl;
      [|eauto using urlMimeScan_range].
    destruct (detectImageTypeByMagicNumber buffer) as [tag|e] eqn:Hd; simpl;
      eauto using urlMimeScan_range, detect_tag_range.
Qed.

(** ** X12 *)

(** X12. Whatever the network does, the network strategy fulfils with one of
    eleven tags: jpg, png, gif, webp, bmp, svg, avif, tiff, ico, heic or
    unknown.  The subtype of a header is never passed on as it is: [jpeg]
    comes out as [jpg] and [svg+xml] as [svg]. *)
Theorem getImageTypeByFetch_range (fetch : Fetch) (url : string) :
  ∃ tag, getImageTypeByFetch fetch url = Normal tag ∧ tag ∈ fetchTags.
Proof. apply getImageTypeByFetch_tag. Qed.

Lemma clampRound_positive (n : number) :
  isPositive n = true → 1 <= clampRound n <= 50000.
Proof.
  destruct n as [| | |q]; simpl; try discriminate; intros _; [lia|].
  apply (clampRound_bounds q).
Qed.

Lemma finish_resolved host width height dimensions :
  finish host width height = Some dimensions →
  1 <= dim_width dimensions <= 50000 ∧ 1 <= dim_height dimensions <= 50000.
Proof.
  unfold finish.
  destruct (isPositive (toNumber host width)) eqn:Hw; [|discriminate].
  destruct (isPositive (toNumber host height)) eqn:Hh; [|discriminate].
  intros [= <-]. simpl. split; apply clampRound_positive; assumption.
Qed.

Lemma completion_normal_inj {A} (x y : A) : Normal x = Normal y → x = y.
Proof. intros H. injection H as H. exact H. Qed.

Lemma fxpBranch_finish host svgElement result :
  fxpBranch host svgElement = Normal result →
  ∃ width height, result = finish host width height.
Proof.
  unfold fxpBranch.
  destruct (fxpString (fxp_width svgElement)) as [widthAttr|]; simpl; [|discriminate].
  destruct (fxpString (fxp_height svgElement)) as [heightAttr|]; simpl; [|discriminate].
  destruct (isFalsy (numericOf widthAttr) || isFalsy (numericOf heightAttr)) eqn:Hfalsy.
  - destruct (fxpString (fxp_viewBox svgElement)) as [viewBox|]; simpl; [|discriminate].
    destruct (match viewBox with
              | Some vb => fromViewBox host vb (numericOf widthAttr) (numericOf heightAttr)
              | None => (numericOf widthAttr, numericOf heightAttr)
              end) as [w h].
    destruct (isFalsy w || isFalsy h).
    + destruct (fxpString (fxp_style svgElement)) as [style|]; simpl; [|discriminate].
      destruct (match style with
                | Some st => fromStyle st w h
                | None => (w, h)
                end) as [w' h'].
      intros H. apply completion_normal_inj in H. subst result. eauto.
    + simpl. intros H. apply completion_normal_inj in H. subst result. eauto.
  - simpl. rewrite Hfalsy. simpl.
    intros H. apply completion_normal_inj in H. subst result. eauto.
Qed.

Lemma domBranch_finish host svgElement :
  ∃ width height, domBranch host svgElement = finish host width height.
Proof.
  unfold domBranch.
  repeat match goal with
  | |- context [let '(a, b) := ?p in _] => destruct p
  end.
  eauto.
Qed.

Lemma fxpAttempt_resolved host cleanedContent dimensions :
  fxpAttempt host cleanedContent = Some dimensions →
  1 <= dim_width dimensions <= 50000 ∧ 1 <= dim_height dimensions <= 50000.
Proof.
  unfold fxpAttempt. destruct (fxp host) as [parse|]; [|discriminate].
  destruct (parse cleanedContent) as [[svgElement|]|]; simpl; try discriminate.
  destruct (fxpBranch host svgElement) as [result|] eqn:Hb; simpl; [|discriminate].
  intros Heq. subst result. apply fxpBranch_finish in Hb as (w & h & Hf).
  symmetry in Hf. exact (finish_resolved _ _ _ _ Hf).
Qed.

Lemma parseSvgDimensions_in_range host svgContent :
  resolved (parseSvgDimensions host svgContent).
Proof.
  unfold parseSvgDimensions, resolved.
  destruct (fxpAttempt host (cleanContent host svgContent)) as [d|] eqn:Hf.
  - right. exact (fxpAttempt_resolved _ _ _ Hf).
  - destruct (domParser host (cleanContent host svgContent)) as [[svgElement|]|];
      [|left; reflexivity..].
    destruct (domBranch_finish host svgElement) as (w & h & ->).
    destruct (finish host w h) as [d|] eqn:Hd; [|left; reflexivity].
    right. exact (finish_resolved _ _ _ _ Hd).
Qed.

(** ** X13 *)

(** X13. Whatever the markup and whatever the parsers answer, the dimension
    resolver returns either 0 by 0 or a width and a height that both lie
    between 1 and 50000: never one dimension alone, never a negative or an
    oversized one. *)
Theorem parseSvgDimensions_resolved (host : Host) (svgContent : string) :
  resolved (parseSvgDimensions host svgContent).
Proof. apply parseSvgDimensions_in_range. Qed.

Lemma getSvgDimensionsFromUrl_value host fetch url :
  ∃ dimensions,
    getSvgDimensionsFromUrl host fetch url = Normal dimensions ∧ resolved dimensions.
Proof.
  unfold getSvgDimensionsFromUrl, svgDimensionsAttempt.
  destruct (startsWith "data:image/svg+xml" url).
  - destruct (decodeURIComponent host _) as [decoded|e]; simpl.
    + eexists. split; [reflexivity|]. apply parseSvgDimensions_in_range.
    + eexists. split; [reflexivity|]. left. reflexivity.
  - destruct (fetch url) as [response|e]; simpl;
      [|eexists; split; [reflexivity|left; reflexivity]].
    destruct (svg_ok response); simpl;
      [|eexists; split; [reflexivity|left; reflexivity]].
    destruct (svg_text response) as [svgContent|e]; simpl.
    + eexists. split; [reflexivity|]. apply parseSvgDimensions_in_range.
    + eexists. split; [reflexivity|]. left. reflexivity.
Qed.

(** ** X14 *)

(** X14. The promise of [getSvgDimensionsFromUrl] never rejects, and it
    fulfils with 0 by 0 or with dimensions from 1 to 50000.  For a URL that is
    not an SVG data URI it fulfils with 0 by 0 whenever the request rejects,
    the response is not ok, or its text cannot be read. *)
Theorem getSvgDimensionsFromUrl_safe (host : Host) (fetch : FetchSvg) (url : string) :
  (∃ dimensions,
     getSvgDimensionsFromUrl host fetch url = Normal dimensions ∧ resolved dimensions) ∧
  (startsWith "data:image/svg+xml" url = false →
   (∃ e, fetch url = Throw e) ∨
   (∃ response, fetch url = Normal response ∧
                (svg_ok response = false ∨ ∃ e, svg_text response = Throw e)) →
   getSvgDimensionsFromUrl host fetch url = Normal zeroDimensions).
Proof.
  split; [apply getSvgDimensionsFromUrl_value|].
  intros Hdata H. unfold getSvgDimensionsFromUrl, svgDimensionsAttempt. rewrite Hdata.
  destruct H as [[e ->]|(response & -> & [Hok|[e He]])]; simpl; [reflexivity| |].
  - rewrite Hok. reflexivity.
  - destruct (svg_ok response); [rewrite He|]; reflexivity.
Qed.

(** ** X15 *)

(** X15. The refinement of a record, with both promises made by the functions
    the merge calls: the type of the result is the type of the record or one
    of the tags of the network strategy other than ['unknown']; its size is
    the size of the record or a width and a height from 1 to 50000; a record
    whose type is not ['svg'] keeps its size; source, alternative text and
    element type are kept. *)
Theorem coordinate_range (host : Host) (fetch : Fetch) (fetchSvg : FetchSvg)
    (url : string) (initialImage : ImageRecord) :
  let updatedImage := coordinate host fetch fetchSvg url initialImage in
  (type updatedImage = type initialImage ∨
   (type updatedImage ∈ fetchTags ∧ type updatedImage ≠ "unknown")) ∧
  ((width updatedImage = width initialImage ∧ height updatedImage = height initialImage) ∨
   (1 <= width updatedImage <= 50000 ∧ 1 <= height updatedImage <= 50000)) ∧
  (type initialImage ≠ "svg" →
   width updatedImage = width initialImage ∧ height updatedImage = height initialImage) ∧
  (src updatedImage, alt updatedImage, elementType updatedImage) =
    (src initialImage, alt initialImage, elementType initialImage).
Proof.
  cbv zeta. unfold coordinate, getImageInfoCoordinated, settle.
  destruct (getImageTypeByFetch_tag fetch url) as (tag & -> & Htag).
  destruct (getSvgDimensionsFromUrl_value host fetchSvg url) as (d & -> & Hd).
  destruct (String.eqb_spec (type initialImage) "svg") as [Hsvg|Hsvg].
  - destruct (String.eqb_spec tag "unknown") as [->|Hunknown];
      destruct Hd as [->|[Hw Hh]]; simpl;
      try (replace (0 <? dim_width d) with true by lia;
           replace (0 <? dim_height d) with true by lia; simpl);
      repeat split; auto; try lia; contradiction.
  - destruct (String.eqb_spec tag "unknown") as [->|Hunknown]; simpl;
      repeat split; auto.
Qed.

End RefinementFacts.

(** ** Attributes of the SVG root *)

Section SvgAttributeFacts.
Import JsString Svg SvgExamples.

Lemma takeDigitsOrDots_cons c r :
  isDigitOrDot c = true → takeDigitsOrDots (String c r) = String c (takeDigitsOrDots r).
Proof. intros H. simpl. rewrite H. reflexivity. Qed.

Lemma matchNumeric_nonempty s run :
  matchNumeric s = Some run → s ≠ EmptyString ∧ String.eqb run EmptyString = false.
Proof.
  induction s as [|c r IH]; [discriminate|].
  intros H. split; [discriminate|]. revert H. cbn [matchNumeric].
  destruct (isDigitOrDot c) eqn:Hc.
  - rewrite (takeDigitsOrDots_cons c r Hc). intros [= <-]. reflexivity.
  - intros H. exact (proj2 (IH H)).
Qed.

Lemma numericOf_run s run :
  matchNumeric s = Some run → numericOf (Some s) = VStr run.
Proof. intros H. unfold numericOf. simpl. rewrite H. reflexivity. Qed.

Lemma truthyString_nonempty s : s ≠ EmptyString → truthyString (Some s) = Some s.
Proof. destruct s; [congruence|reflexivity]. Qed.

Lemma fxpString_string s : s ≠ EmptyString → fxpString (Some (FStr s)) = Normal (Some s).
Proof. destruct s; [congruence|reflexivity]. Qed.

Lemma domBranch_sized host svgElement widthAttr heightAttr widthRun heightRun :
  matchNumeric widthAttr = Some widthRun → matchNumeric heightAttr = Some heightRun →
  dom_width svgElement = Some widthAttr → dom_height svgElement = Some heightAttr →
  domBranch host svgElement = finish host (VStr widthRun) (VStr heightRun).
Proof.
  intros Hw Hh Hdw Hdh.
  destruct (matchNumeric_nonempty _ _ Hw) as [Hw1 Hw2].
  destruct (matchNumeric_nonempty _ _ Hh) as [Hh1 Hh2].
  unfold domBranch. rewrite Hdw, Hdh.
  rewrite (truthyString_nonempty _ Hw1), (truthyString_nonempty _ Hh1).
  rewrite (numericOf_run _ _ Hw), (numericOf_run _ _ Hh).
  repeat (cbn [isFalsy orb]; rewrite ?Hw2, ?Hh2; cbv beta iota zeta).
  reflexivity.
Qed.

Lemma fxpBranch_sized host svgElement widthAttr heightAttr widthRun heightRun :
  matchNumeric widthAttr = Some widthRun → matchNumeric heightAttr = Some heightRun →
  fxp_width svgElement = Some (FStr widthAttr) →
  fxp_height svgElement = Some (FStr heightAttr) →
  fxpBranch host svgElement = Normal (finish host (VStr widthRun) (VStr heightRun)).
Proof.
  intros Hw Hh Hdw Hdh.
  destruct (matchNumeric_nonempty _ _ Hw) as [Hw1 Hw2].
  destruct (matchNumeric_nonempty _ _ Hh) as [Hh1 Hh2].
  unfold fxpBranch. rewrite Hdw, Hdh.
  rewrite (fxpString_string _ Hw1), (fxpString_string _ Hh1). simpl.
  rewrite (numericOf_run _ _ Hw), (numericOf_run _ _ Hh).
  repeat (cbn [isFalsy orb mbind completion_bind]; rewrite ?Hw2, ?Hh2; cbv beta iota zeta).
  reflexivity.
Qed.

(** ** X16 *)

(** X16. When the [width] and the [height] attribute of the root both hold a
    run of digits and dots, the two runs alone decide the result of a branch:
    the view box, the [style] attribute, the inline style and the bounding box
    are not consulted, in the branch of [DOMParser] and, for attributes that
    [fast-xml-parser] left as strings, in its branch too.  So when the run of
    the width does not parse to a positive number (as for [width="0"]) the
    branch finds no size, whatever view box the root has. *)
Theorem explicit_size_shadows_fallbacks (host : Host)
    (widthAttr heightAttr widthRun heightRun : string) :
  matchNumeric widthAttr = Some widthRun →
  matchNumeric heightAttr = Some heightRun →
  (∀ svgElement : DomElement,
     dom_width svgElement = Some widthAttr → dom_height svgElement = Some heightAttr →
     domBranch host svgElement = finish host (VStr widthRun) (VStr heightRun)) ∧
  (∀ svgElement : FxpElement,
     fxp_width svgElement = Some (FStr widthAttr) →
     fxp_height svgElement = Some (FStr heightAttr) →
     fxpBranch host svgElement = Normal (finish host (VStr widthRun) (VStr heightRun))) ∧
  (isPositive (parseFloat host widthRun) = false →
   finish host (VStr widthRun) (VStr heightRun) = None).
Proof.
  intros Hw Hh. split; [|split].
  - intros svgElement. apply domBranch_sized; assumption.
  - intros svgElement. apply fxpBranch_sized; assumption.
  - intros Hpos. unfold finish, toNumber. cbn [isFalsy].
    rewrite (proj2 (matchNumeric_nonempty _ _ Hw)), Hpos. reflexivity.
Qed.

(** A root of width [0px] and height [40] with a view box of 120 by 80: no
    size is found. *)
Lemma explicit_size_shadows_fallbacks_witness :
  let root := sizedRoot "0px" "40" (Some "0 0 120 80") in
  matchNumeric "0px" = Some "0" ∧ matchNumeric "40" = Some "40" ∧
  domBranch (exampleHost root) root = None.
Proof.
  intros root. split; [reflexivity|]. split; [reflexivity|].
  destruct (explicit_size_shadows_fallbacks (exampleHost root)
              "0px" "40" "0" "40" eq_refl eq_refl) as (Hdom & _ & Hnone).
  rewrite (Hdom root eq_refl eq_refl). apply Hnone. reflexivity.
Defined.

Lemma fxpAttempt_typed_width host cleanedContent parse svgElement n :
  fxp host = Some parse →
  parse cleanedContent = Normal (Some svgElement) →
  fxp_width svgElement = Some (FNum n) → numberTruthy n = true →
  fxpAttempt host cleanedContent = None.
Proof.
  intros Hfxp Hparse Hwidth Hn. unfold fxpAttempt. rewrite Hfxp, Hparse. simpl.
  unfold fxpBranch. rewrite Hwidth.
  assert (Hthrow : fxpString (Some (FNum n)) = Throw TypeError).
  { unfold fxpString. cbn [fxpTruthy]. rewrite Hn. reflexivity. }
  rewrite Hthrow. reflexivity.
Qed.

(** ** X17 *)

(** X17. The parser of [fxp] is built with [parseAttributeValue: true], so a
    [width] attribute such as [100] reaches the code as a number.  For a
    number other than 0 and [NaN] the call of [match] on it throws, the first
    attempt is given up, and the result is the one of the [DOMParser] branch:
    the dimensions it finds, 0 by 0 when it finds none, when there is no
    [svg] root or when the parser throws. *)
Theorem typed_width_defers_to_dom (host : Host) (svgContent : string)
    (parse : string → completion (option FxpElement)) (svgElement : FxpElement)
    (n : number) :
  fxp host = Some parse →
  parse (cleanContent host svgContent) = Normal (Some svgElement) →
  fxp_width svgElement = Some (FNum n) →
  numberTruthy n = true →
  parseSvgDimensions host svgContent =
    match domParser host (cleanContent host svgContent) with
    | Normal (Some domElement) => default zeroDimensions (domBranch host domElement)
    | Normal None | Throw _ => zeroDimensions
    end.
Proof.
  intros Hfxp Hparse Hwidth Hn. unfold parseSvgDimensions.
  rewrite (fxpAttempt_typed_width _ _ _ _ _ Hfxp Hparse Hwidth Hn). reflexivity.
Qed.

(** The element of width 100 and height 50: the size comes from the
    [DOMParser] branch. *)
Lemma typed_width_defers_to_dom_witness :
  parseSvgDimensions (fxpHost typedRoot (sizedRoot "100" "50" None)) "<svg/>" =
  {| dim_width := 100; dim_height := 50 |}.
Proof.
  rewrite (typed_width_defers_to_dom (fxpHost typedRoot (sizedRoot "100" "50" None))
             "<svg/>" (fun _ => Normal (Some typedRoot)) typedRoot (Fin 100%Q)
             eq_refl eq_refl eq_refl eq_refl).
  vm_compute. reflexivity.
Defined.

End SvgAttributeFacts.

(** ** The callback of the refinement *)

Section CallbackFacts.
Import JsString Svg SvgUrl Network Coordinator Refinement.

Lemma getImageInfoCoordinated_src typeByFetch svgDimensions initialImage :
  src (getImageInfoCoordinated typeByFetch svgDimensions initialImage) = src initialImage.
Proof.
  unfold getImageInfoCoordinated.
  destruct (settle typeByFetch) as [tag|]; destruct (settle _) as [d|];
    repeat match goal with |- context [if ?c then _ else _] => destruct c end;
    reflexivity.
Qed.

Lemma assignFirst_src source updatedImage images :
  src updatedImage = source →
  src <$> assignFirst source updatedImage images = src <$> images.
Proof.
  intros Hsrc. induction images as [|image images IH]; [reflexivity|].
  cbn [assignFirst]. destruct (String.eqb_spec (src image) source) as [Heq|Hne].
  - cbn [fmap list_fmap]. congruence.
  - cbn [fmap list_fmap]. f_equal. exact IH.
Qed.

(** The only place [assignFirst] writes to is the first record of the
    source. *)
Lemma assignFirst_lookup source updatedImage images : ∀ i,
  assignFirst source updatedImage images !! i ≠ images !! i →
  assignFirst source updatedImage images !! i = Some updatedImage ∧
  (∃ existing, images !! i = Some existing ∧ src existing = source) ∧
  (∀ j earlier, (j < i)%nat → images !! j = Some earlier → src earlier ≠ source).
Proof.
  induction images as [|image images IH]; intros i; [intros H; destruct H; reflexivity|].
  cbn [assignFirst]. destruct (String.eqb_spec (src image) source) as [Heq|Hne].
  - destruct i as [|i]; [|intros H; destruct H; reflexivity].
    intros _. split; [reflexivity|]. split; [exists image; auto|].
    intros j earlier Hj. lia.
  - destruct i as [|i]; [intros H; destruct H; reflexivity|].
    cbn [lookup list_lookup]. intros H. destruct (IH i H) as (H1 & H2 & H3).
    split; [exact H1|]. split; [exact H2|].
    intros [|j] earlier Hj; cbn [lookup list_lookup].
    + intros [= <-]. exact Hne.
    + apply H3. lia.
Qed.

(** ** X18 *)

(** X18. The callback run when the refinement of a record settles keeps the
    number of records and the source of each of them, and writes to at most
    one place of [images]: the first record that has the source of the
    snapshot, which need not be the record the snapshot was taken from.  It
    writes only when the type, the width or the height of the merged snapshot
    differs from the snapshot, and the record written to becomes the merged
    snapshot, alternative text and element type included. *)
Theorem onCoordinated_frame (host : Host) (fetch : Fetch) (fetchSvg : FetchSvg)
    (currentImage : ImageRecord) (images : list ImageRecord) :
  let source := src currentImage in
  let updatedImage := coordinate host fetch fetchSvg source currentImage in
  let updatedImages := onCoordinated source currentImage updatedImage images in
  src <$> updatedImages = src <$> images ∧
  ∀ i, updatedImages !! i ≠ images !! i →
    updatedImages !! i = Some updatedImage ∧
    changed updatedImage currentImage = true ∧
    (∃ existing, images !! i = Some existing ∧ src existing = source) ∧
    (∀ j earlier, (j < i)%nat → images !! j = Some earlier → src earlier ≠ source).
Proof.
  intros source updatedImage updatedImages. subst updatedImages. unfold onCoordinated.
  assert (Hsrc : src updatedImage = source)
    by apply getImageInfoCoordinated_src.
  destruct (changed updatedImage currentImage).
  - split; [apply assignFirst_src, Hsrc|].
    intros i Hi. destruct (assignFirst_lookup _ _ _ i Hi) as (H1 & H2 & H3). auto.
  - split; [reflexivity|]. intros i Hi. destruct Hi. reflexivity.
Qed.

End CallbackFacts.

(** ** Normalization and the final pass, further *)

Section NormalizationFacts.
Import JsString Extraction Output.

Lemma split_two_includes sep s a b rest :
  split sep s = a :: b :: rest → includes (String sep EmptyString) s = true.
Proof.
  intros Hs. destruct (includes (String sep EmptyString) s) eqn:Hi; [reflexivity|].
  rewrite (split_free sep s Hi) in Hs. discriminate Hs.
Qed.

Lemma filter_keeps {A} (f : A → bool) l : Forall (fun x => f x = true) (List.filter f l).
Proof.
  induction l as [|x l IH]; simpl; [constructor|].
  destruct (f x) eqn:Hx; [constructor|]; assumption.
Qed.

(** The pieces of a normalized source. *)
Lemma normalizeUrl_pieces u base params rest :
  split "?" u = base :: params :: rest →
  free "?" base ∧
  Forall (free "?") (List.filter keepParam (split "&" params)) ∧
  Forall (free "&") (List.filter keepParam (split "&" params)) ∧
  normalizeUrl u =
    match List.filter keepParam (split "&" params) with
    | [] => base
    | kept => base +:+ String "?" (join "&" kept)
    end.
Proof.
  intros Hs. pose proof (split_pieces_free "?" "?" u (or_introl eq_refl)) as Hfree.
  rewrite Hs in Hfree. inversion Hfree as [|? ? Hbase Hrest]; subst.
  inversion Hrest as [|? ? Hparams _]; subst.
  split; [exact Hbase|].
  split; [apply Forall_filter_keep, split_pieces_free; right; exact Hparams|].
  split; [apply Forall_filter_keep, split_pieces_free; left; reflexivity|].
  unfold normalizeUrl. rewrite (split_two_includes _ _ _ _ _ Hs), Hs.
  cbn [lookup list_lookup].
  destruct (List.filter keepParam (split "&" params)); reflexivity.
Qed.

Lemma normalizeUrl_normal u : normalizeUrl (normalizeUrl u) = normalizeUrl u.
Proof.
  destruct (includes "?" u) eqn:Hq.
  2: { rewrite (normalizeUrl_no_query u Hq). apply normalizeUrl_no_query, Hq. }
  destruct (split_includes _ _ Hq) as (base & params & rest & Hs).
  destruct (normalizeUrl_pieces _ _ _ _ Hs) as (Hbase & Hqm & Hamp & ->).
  pose proof (filter_filter_id keepParam (split "&" params)) as Hkeep.
  destruct (List.filter keepParam (split "&" params)) as [|p ps] eqn:Hpp.
  - apply normalizeUrl_no_query, Hbase.
  - assert (Hjoin : free "?" (join "&" (p :: ps)))
      by (apply join_free; [discriminate|exact Hqm]).
    assert (Hs' : split "?" (base +:+ String "?" (join "&" (p :: ps))) =
                  [base; join "&" (p :: ps)]).
    { rewrite split_app_sep by exact Hbase. rewrite (split_free "?" _ Hjoin). reflexivity. }
    destruct (normalizeUrl_pieces _ _ _ _ Hs') as (_ & _ & _ & ->).
    rewrite split_join by (discriminate || exact Hamp).
    rewrite Hkeep. reflexivity.
Qed.

(** ** X19 *)

(** X19. A source with a question mark, read again after normalization the
    way the code reads it: the part before the first question mark is
    unchanged; the parameters are those of the part between the first and the
    second question mark whose lowercased key is not a tracking parameter, in
    their order, and none of them is a tracking parameter; whatever follows a
    second question mark is dropped; and the question mark itself goes when
    no parameter is left. *)
Theorem normalizeUrl_reads_back (u base params : string) (rest : list string) :
  split "?" u = base :: params :: rest →
  let kept := List.filter keepParam (split "&" params) in
  Forall (fun param => keepParam param = true) kept ∧
  match split "?" (normalizeUrl u) with
  | [baseUrl] => baseUrl = base ∧ kept = []
  | [baseUrl; query] => baseUrl = base ∧ split "&" query = kept
  | _ => False
  end.
Proof.
  intros Hs kept. split; [apply filter_keeps|].
  destruct (normalizeUrl_pieces _ _ _ _ Hs) as (Hbase & Hqm & Hamp & ->).
  fold kept in Hqm, Hamp |- *. destruct kept as [|p ps].
  - rewrite (split_free "?" base Hbase). auto.
  - assert (Hjoin : free "?" (join "&" (p :: ps)))
      by (apply join_free; [discriminate|exact Hqm]).
    rewrite split_app_sep by exact Hbase. rewrite (split_free "?" _ Hjoin).
    split; [reflexivity|]. apply split_join; [discriminate|exact Hamp].
Qed.

(** A source with a tracking parameter, a parameter to keep, and a second
    question mark. *)
Lemma normalizeUrl_reads_back_witness :
  split "?" "https://site.com/a?UTM_Source=x&b=2?c=3" =
    ["https://site.com/a"; "UTM_Source=x&b=2"; "c=3"] ∧
  Forall (fun param => keepParam param = true)
         (List.filter keepParam (split "&" "UTM_Source=x&b=2")) ∧
  match split "?" (normalizeUrl "https://site.com/a?UTM_Source=x&b=2?c=3") with
  | [baseUrl] =>
      baseUrl = "https://site.com/a" ∧
      List.filter keepParam (split "&" "UTM_Source=x&b=2") = []
  | [baseUrl; query] =>
      baseUrl = "https://site.com/a" ∧
      split "&" query = List.filter keepParam (split "&" "UTM_Source=x&b=2")
  | _ => False
  end.
Proof.
  split; [reflexivity|].
  exact (normalizeUrl_reads_back "https://site.com/a?UTM_Source=x&b=2?c=3"
           "https://site.com/a" "UTM_Source=x&b=2" ["c=3"] eq_refl).
Defined.

Lemma setSrc_own image : setSrc (src image) image = image.
Proof. destruct image; reflexivity. Qed.

(** Every record of the output passes the size filter and has a normalized
    source. *)
Lemma pass_outputs_kept images : ∀ (uniqueUrls : gset string) (out : list ImageRecord),
  Forall keptRecord out → Forall keptRecord (foldl passStep (uniqueUrls, out) images).2.
Proof.
  induction images as [|image images IH]; intros uniqueUrls out Hout; [exact Hout|].
  cbn [foldl]. rewrite passStep_eq.
  destruct (sizeFilter image) eqn:Hsize; [|apply IH, Hout].
  case_bool_decide; [apply IH, Hout|].
  apply IH. apply Forall_app. split; [exact Hout|].
  apply Forall_singleton. split; [exact Hsize|apply normalizeUrl_normal].
Qed.

(** A pass over records that are kept, with distinct sources not yet seen,
    appends them as they are. *)
Lemma pass_over_kept images : ∀ (uniqueUrls : gset string) (out : list ImageRecord),
  Forall keptRecord images → NoDup (src <$> images) →
  (∀ image, image ∈ images → src image ∉ uniqueUrls) →
  (foldl passStep (uniqueUrls, out) images).2 = out ++ images.
Proof.
  induction images as [|image images IH]; intros uniqueUrls out Hkept Hnd Hnew.
  - simpl. rewrite app_nil_r. reflexivity.
  - cbn [foldl]. rewrite passStep_eq.
    apply Forall_cons in Hkept as [[Hsize Hnorm] Hkept].
    cbn [fmap list_fmap] in Hnd. apply NoDup_cons in Hnd as [Hfresh Hnd].
    rewrite Hsize, Hnorm.
    rewrite bool_decide_eq_false_2 by (apply Hnew; left).
    rewrite setSrc_own, IH; [rewrite <- app_assoc; reflexivity|assumption..|].
    intros other Hother. rewrite elem_of_union, elem_of_singleton.
    intros [Heq|Hin].
    + apply Hfresh. rewrite <- Heq. apply list_elem_of_fmap. eauto.
    + apply (Hnew other); [right; exact Hother|exact Hin].
Qed.

Lemma finalPass_kept images : Forall keptRecord (finalPass images).
Proof. apply pass_outputs_kept. constructor. Qed.

Lemma finalPass_NoDup images : NoDup (src <$> finalPass images).
Proof.
  destruct (pass_invariant images ∅ []) as (_ & Hnd & _).
  - intros u. simpl. rewrite elem_of_nil. split; [intros H; destruct (not_elem_of_empty u H)|tauto].
  - simpl. apply NoDup_nil_2.
  - exact Hnd.
Qed.

(** ** X20 *)

(** X20. Every record the final pass returns passes the size filter and has
    a source that normalization leaves as it is; and the pass is idempotent:
    run on its own output it returns that output, in the same order. *)
Theorem finalPass_idempotent (images : list ImageRecord) :
  Forall (fun image => sizeFilter image = true ∧ normalizeUrl (src image) = src image)
         (finalPass images) ∧
  finalPass (finalPass images) = finalPass images.
Proof.
  split; [apply finalPass_kept|].
  unfold finalPass at 1.
  rewrite pass_over_kept; [reflexivity|apply finalPass_kept|apply finalPass_NoDup|].
  intros image _. apply not_elem_of_empty.
Qed.

End NormalizationFacts.

(** ** The final pass on shared objects *)

Section SharedRecordFacts.
Import JsString Extraction Refinement Output SharedRecords.

Lemma readAll_app heap refs refs' :
  readAll heap (refs ++ refs') = readAll heap refs ++ readAll heap refs'.
Proof. unfold readAll. induction refs as [|i refs IH]; [reflexivity|].
  cbn [app omap list_omap]. destruct (heap !! i); cbn; rewrite IH; reflexivity.
Qed.

Lemma readAll_ext (heap heap' : list ImageRecord) refs :
  (∀ i, i ∈ refs → heap' !! i = heap !! i) → readAll heap' refs = readAll heap refs.
Proof.
  unfold readAll. induction refs as [|i refs IH]; intros H; [reflexivity|].
  cbn [omap list_omap]. rewrite (H i) by left.
  rewrite IH; [reflexivity|]. intros j Hj. apply H. right. exact Hj.
Qed.

Lemma sharedStep_eq (uniqueUrls : gset string) (heap : Heap) (refs : list nat) (i : nat) :
  sharedStep (uniqueUrls, heap, refs) i =
  match heap !! i with
  | Some image =>
      if sizeFilter image then
        if bool_decide (normalizeUrl (src image) ∈ uniqueUrls) then (uniqueUrls, heap, refs)
        else ({[normalizeUrl (src image)]} ∪ uniqueUrls,
              <[i := setSrc (normalizeUrl (src image)) image]> heap,
              refs ++ [i])
      else (uniqueUrls, heap, refs)
  | None => (uniqueUrls, heap, refs)
  end.
Proof. reflexivity. Qed.

(** What the loop of the final pass keeps true, place by place: the objects
    from place [length front] on are those of the input, and the places
    referred to are below it. *)
Lemma shared_pass_simulation (back : list ImageRecord) :
  ∀ (front : list ImageRecord) (uniqueUrls : gset string) (refs : list nat),
  Forall (fun i => (i < length front)%nat) refs →
  ∃ uniqueUrls' heap' refs',
    foldl sharedStep (uniqueUrls, front ++ back, refs)
          (seq (length front) (length back)) = (uniqueUrls', heap', refs') ∧
    foldl passStep (uniqueUrls, readAll (front ++ back) refs) back =
      (uniqueUrls', readAll heap' refs') ∧
    length heap' = length (front ++ back) ∧
    Forall (fun i => (i < length heap')%nat) refs' ∧
    (∀ i, i ∈ refs → i ∈ refs') ∧
    (∀ i, i ∉ refs' → heap' !! i = (front ++ back) !! i).
Proof.
  induction back as [|image back IH]; intros front uniqueUrls refs Hrefs.
  - exists uniqueUrls, (front ++ []), refs. rewrite app_nil_r in *.
    repeat split; auto.
  - cbn [length seq foldl].
    assert (Hlookup : (front ++ image :: back) !! length front = Some image)
      by apply list_lookup_middle, eq_refl.
    assert (Hnext : ∀ image' : ImageRecord, length (front ++ [image']) = S (length front))
      by (intros; rewrite length_app; simpl; lia).
    rewrite sharedStep_eq, passStep_eq, Hlookup.
    destruct (sizeFilter image) eqn:Hsize.
    2: { specialize (IH (front ++ [image]) uniqueUrls refs).
         rewrite Hnext, <- app_assoc in IH. apply IH.
         eapply Forall_impl; [exact Hrefs|]. simpl. intros; lia. }
    case_bool_decide as Hseen.
    { specialize (IH (front ++ [image]) uniqueUrls refs).
      rewrite Hnext, <- app_assoc in IH. apply IH.
      eapply Forall_impl; [exact Hrefs|]. simpl. intros; lia. }
    set (normalized := setSrc (normalizeUrl (src image)) image).
    assert (Hheap : <[length front := normalized]> (front ++ image :: back) =
                    (front ++ [normalized]) ++ back).
    { rewrite insert_app_r_alt by lia. rewrite Nat.sub_diag, <- app_assoc. reflexivity. }
    rewrite Hheap.
    specialize (IH (front ++ [normalized]) ({[normalizeUrl (src image)]} ∪ uniqueUrls)
                  (refs ++ [length front])).
    rewrite Hnext in IH.
    destruct IH as (uniqueUrls' & heap' & refs' & Hshared & Hpass & Hlen & Hbound &
                    Hmono & Hother).
    { apply Forall_app. split.
      - eapply Forall_impl; [exact Hrefs|]. simpl. intros; lia.
      - apply Forall_singleton. lia. }
    exists uniqueUrls', heap', refs'. split; [exact Hshared|].
    split; [|split; [|split; [exact Hbound|split]]].
    + rewrite <- Hpass. f_equal. f_equal.
      rewrite readAll_app. f_equal.
      * apply readAll_ext. intros i Hi.
        rewrite Forall_forall in Hrefs. specialize (Hrefs i Hi).
        rewrite <- !app_assoc. rewrite !(lookup_app_l front) by exact Hrefs. reflexivity.
      * unfold readAll. cbn [omap list_omap].
        rewrite <- app_assoc. cbn [app].
        rewrite list_lookup_middle by reflexivity. reflexivity.
    + rewrite Hlen. rewrite !length_app. simpl. lia.
    + intros i Hi. apply Hmono, elem_of_app. left. exact Hi.
    + intros i Hi. rewrite (Hother i Hi), <- Hheap.
      apply list_lookup_insert_ne. intros <-. apply Hi, Hmono, elem_of_app.
      right. left.
Qed.

Lemma sharedPass_finalPass images :
  readAll (sharedPass images).1 (sharedPass images).2 = finalPass images ∧
  length (sharedPass images).1 = length images ∧
  Forall (fun i => (i < length images)%nat) (sharedPass images).2 ∧
  (∀ i, i ∉ (sharedPass images).2 → (sharedPass images).1 !! i = images !! i).
Proof.
  destruct (shared_pass_simulation images [] ∅ [] (Forall_nil_2 _))
    as (uniqueUrls' & heap' & refs' & Hshared & Hpass & Hlen & Hbound & _ & Hother).
  cbn [app length] in Hshared, Hpass, Hlen, Hother.
  unfold sharedPass, finalPass. rewrite Hshared.
  change (readAll images []) with (@nil ImageRecord) in Hpass. rewrite Hpass.
  cbn [fst snd]. rewrite <- Hlen. auto.
Qed.

(** ** X21 *)

(** X21. The final pass written on shared objects, where the normalized
    source is written to the object itself and [filteredImages] refers to
    it, returns the records of the pass on values: read through
    [filteredImages] when [extractImages] returns, the objects are the
    records of [finalPass].  No object is added or removed, and an object
    that is not referred to keeps every field, its source too. *)
Theorem sharedPass_agrees (images : list ImageRecord) :
  let heap := (sharedPass images).1 in
  let filteredImages := (sharedPass images).2 in
  readAll heap filteredImages = finalPass images ∧
  length heap = length images ∧
  ∀ i, i ∉ filteredImages → heap !! i = images !! i.
Proof.
  cbv zeta. destruct (sharedPass_finalPass images) as (Hread & Hlen & _ & Hother).
  auto.
Qed.

Lemma assignFirst_other source updatedImage images : ∀ i,
  (∀ existing, images !! i = Some existing → src existing ≠ source) →
  assignFirst source updatedImage images !! i = images !! i.
Proof.
  induction images as [|image images IH]; intros i Hi; [reflexivity|].
  cbn [assignFirst]. destruct (String.eqb_spec (src image) source) as [Heq|Hne].
  - destruct i as [|i]; [|reflexivity]. destruct (Hi image eq_refl Heq).
  - destruct i as [|i]; [reflexivity|]. cbn [lookup list_lookup]. apply IH.
    intros existing Hex. apply Hi. exact Hex.
Qed.

Lemma assignFirst_absent source updatedImage images :
  Forall (fun image => src image ≠ source) images →
  assignFirst source updatedImage images = images.
Proof.
  induction 1 as [|image images Hne _ IH]; [reflexivity|].
  cbn [assignFirst]. destruct (String.eqb_spec (src image) source); [contradiction|].
  rewrite IH. reflexivity.
Qed.

Lemma keptRecord_source source image :
  normalizeUrl source ≠ source → keptRecord image → src image ≠ source.
Proof. intros Hne [_ Hnorm] Heq. apply Hne. rewrite <- Heq. exact Hnorm. Qed.

(** ** X22 *)

(** X22. The refinement of a record whose source normalization changes (a
    source with a tracking parameter, say) never reaches the list.  Its
    callback runs after the final pass has written the normalized sources:
    the record it finds in [images], if any, is not one [filteredImages]
    refers to, and the copy of the list in [localStorage] has no record of
    that source.  [objects] and [storedImages] are the objects and the copy
    when the callback runs: those the pass left, or written to since by other
    callbacks, which keep every source; the copy can be the list of this
    extraction or of a later one, over the candidates [extracted].  Whatever
    the refinement found, the holder of the returned array reads the same
    records after the callback as before it, and the copy is not changed. *)
Theorem tracked_source_never_refined (images extracted : list ImageRecord)
    (source : string) (currentImage updatedImage : ImageRecord)
    (objects storedImages : list ImageRecord) :
  normalizeUrl source ≠ source →
  src <$> objects = src <$> (sharedPass images).1 →
  src <$> storedImages = src <$> finalPass extracted →
  readAll (onCoordinated source currentImage updatedImage objects) (sharedPass images).2 =
    readAll objects (sharedPass images).2 ∧
  onCoordinatedStored source currentImage updatedImage objects storedImages = storedImages.
Proof.
  intros Hne Hobjects Hstored.
  destruct (sharedPass_finalPass images) as (Hread & _ & _ & _).
  pose proof (finalPass_kept images) as Hkept.
  pose proof (finalPass_kept extracted) as Hextracted.
  split.
  - unfold onCoordinated.
    destruct (changed updatedImage currentImage); [|reflexivity].
    apply readAll_ext. intros i Hi. apply assignFirst_other.
    intros existing Hex.
    assert (Hsrc : (src <$> (sharedPass images).1) !! i = Some (src existing))
      by (rewrite <- Hobjects, list_lookup_fmap, Hex; reflexivity).
    rewrite list_lookup_fmap in Hsrc.
    destruct ((sharedPass images).1 !! i) as [record|] eqn:Hrecord; [|discriminate].
    injection Hsrc as Hsrc. rewrite <- Hsrc.
    apply (keptRecord_source _ _ Hne).
    rewrite Forall_forall in Hkept. apply Hkept. rewrite <- Hread.
    unfold readAll. apply list_elem_of_omap. exists i. auto.
  - unfold onCoordinatedStored.
    destruct (changed updatedImage currentImage); [|reflexivity].
    destruct (List.find _ objects); [|reflexivity].
    apply assignFirst_absent.
    apply Forall_forall. intros image Himage.
    assert (Hin : src image ∈ src <$> finalPass extracted).
    { rewrite <- Hstored. apply list_elem_of_fmap. eauto. }
    apply list_elem_of_fmap in Hin as (record & -> & Hrecord).
    apply (keptRecord_source _ _ Hne).
    rewrite Forall_forall in Hextracted. apply Hextracted, Hrecord.
Qed.

(** A picture whose source has a tracking parameter: its refinement finds
    the type [png], and the list keeps [unknown]. *)
Lemma tracked_source_never_refined_witness :
  let first := {| src := "https://site.com/a?utm_source=x"; alt := EmptyString;
                  width := 100; height := 100; type := "unknown"; elementType := "img" |} in
  normalizeUrl (src first) ≠ src first ∧
  readAll (onCoordinated (src first) first (setType "png" first) (sharedPass [first]).1)
          (sharedPass [first]).2 = readAll (sharedPass [first]).1 (sharedPass [first]).2.
Proof.
  intros first.
  assert (Hne : normalizeUrl (src first) ≠ src first) by (vm_compute; discriminate).
  split; [exact Hne|].
  exact (proj1 (tracked_source_never_refined [first] [first] (src first) first
                  (setType "png" first) (sharedPass [first]).1 (finalPass [first])
                  Hne eq_refl eq_refl)).
Defined.

End SharedRecordFacts.

(** ** The body of the response *)

Section ResponseBodyFacts.
Import JsString Sniffer Network.

Lemma detect_fulfils (buffer : ArrayBuffer) (handler : error → completion string) :
  tryCatch (detectImageTypeByMagicNumber buffer) handler =
  detectImageTypeByMagicNumber buffer.
Proof.
  unfold detectImageTypeByMagicNumber.
  destruct (byteLength buffer =? 0); [reflexivity|].
  destruct (sniff buffer); reflexivity.
Qed.

Lemma readable_response_decides fetch url response buffer :
  tryConfigs fetch url fetchConfigs None = Some response →
  isOpaque response = false → arrayBuffer response = Normal buffer →
  getImageTypeByFetch fetch url = detectImageTypeByMagicNumber buffer.
Proof.
  intros Htry Hopaque Hbuffer. unfold getImageTypeByFetch.
  rewrite Htry, Hopaque, Hbuffer. apply detect_fulfils.
Qed.

(** ** X23 *)

(** X23. When the response the loop over the two configurations ends with is
    not opaque and its body can be read, the bytes of the body alone decide
    the answer of the network strategy: the [Content-Type] header and the URL
    are not consulted, so a body that is not recognised gives ['unknown']
    whatever the URL says.  That response is the first one when it is [ok] or
    when the second request rejects, even if its status is an error; otherwise
    it is the second one. *)
Theorem readable_body_decides (fetch : Fetch) (url : string) (first second : FetchConfig)
    (response : Response) (buffer : ArrayBuffer) :
  fetchConfigs = [first; second] →
  isOpaque response = false →
  arrayBuffer response = Normal buffer →
  (fetch url first = Normal response ∧
   (ok response = true ∨ ∃ e, fetch url second = Throw e)) ∨
  (((∃ e, fetch url first = Throw e) ∨
    (∃ other, fetch url first = Normal other ∧ ok other = false ∧ isOpaque other = false)) ∧
   fetch url second = Normal response) →
  getImageTypeByFetch fetch url = detectImageTypeByMagicNumber buffer.
Proof.
  intros Hconfigs Hopaque Hbuffer Hcases.
  apply (readable_response_decides fetch url response buffer); [|exact Hopaque|exact Hbuffer].
  rewrite Hconfigs. cbn [tryConfigs].
  destruct Hcases as [[Hfirst Hrest]|[Hfirst Hsecond]].
  - rewrite Hfirst, Hopaque. destruct (ok response) eqn:Hok; [reflexivity|].
    destruct Hrest as [Hrest|[e Hrest]]; [discriminate|].
    rewrite Hrest. reflexivity.
  - destruct Hfirst as [[e Hfirst]|(other & Hfirst & Hok & Hop)]; rewrite Hfirst.
    + rewrite Hsecond, Hopaque. destruct (ok response); reflexivity.
    + rewrite Hok, Hop, Hsecond, Hopaque. destruct (ok response); reflexivity.
Qed.

(** An error page served for a URL that names a type: the body decides. *)
Lemma readable_body_decides_witness :
  let page := {| ok := false; isOpaque := false; contentType := Some "image/png";
                 arrayBuffer := Normal [Byte.x3c; Byte.x68; Byte.x74; Byte.x6d; Byte.x6c] |} in
  let fetch : Fetch := fun _ config =>
    match mode config with
    | ModeCors => Normal page
    | ModeNoCors => Throw (Error "blocked")
    end in
  getImageTypeByFetch fetch "https://site.com/image/png/missing" = Normal "unknown".
Proof.
  intros page fetch.
  rewrite (readable_body_decides fetch "https://site.com/image/png/missing"
             {| method := "GET"; mode := ModeCors; cache := CacheNoCache |}
             {| method := "GET"; mode := ModeNoCors; cache := CacheDefault |}
             page [Byte.x3c; Byte.x68; Byte.x74; Byte.x6d; Byte.x6c]
             eq_refl eq_refl eq_refl).
  - reflexivity.
  - left. split; [reflexivity|]. right. exists (Error "blocked"). reflexivity.
Defined.

End ResponseBodyFacts.

(** ** Downloads *)

Section DownloadFacts.
Import JsString Classifier Network Background Downloads.
Context {World : Type} (chrome : Chrome World).

(** The two fallbacks together never throw: what they throw is caught. *)
Lemma fallbacks_error url filename (error : error) world e world' :
  fallbacks chrome url filename error world = (Throw e, world') → e = error.
Proof.
  unfold fallbacks, await, tryAsync.
  destruct (cacheDownload chrome url filename world) as [[returned|cacheError] world1].
  - destruct returned; unfold resolve, reject; intros H; inversion H; reflexivity.
  - destruct (fetchDownload chrome url filename world1) as [[returned|fetchError] world2].
    + destruct returned; unfold resolve, reject; intros H; inversion H; reflexivity.
    + unfold resolve, reject. intros H. inversion H. reflexivity.
Qed.

Lemma downloadImage_network url filename world :
  startsWith "data:image/" url = false →
  downloadImage chrome url filename world =
  match networkDownload chrome url filename world with
  | (Normal done, world') => (Normal done, world')
  | (Throw error, world') =>
      match fallbacks chrome url filename error world' with
      | (Normal done, world'') => (Normal done, world'')
      | (Throw e, world'') => (Throw e, world'')
      end
  end.
Proof.
  intros Hdata. unfold downloadImage. rewrite Hdata. unfold tryAsync.
  destruct (networkDownload chrome url filename world) as [[done|error] world1];
    [reflexivity|].
  destruct (fallbacks chrome url filename error world1) as [[done|e] world2]; reflexivity.
Qed.

(** ** X24 *)

(** X24. [downloadImage] on a URL that is not a data URI.  When the first
    call of [chrome.downloads.download] fulfils, the promise fulfils and
    nothing else is asked of the browser.  When it rejects (or the file name
    cannot be read from the URL), the promise can still fulfil through the
    cached copy or the second download, but when it rejects it rejects with
    the error of that first attempt: the errors of the fallbacks are never
    the ones reported. *)
Theorem downloadImage_first_error (url : string) (filename : option string) (world : World) :
  startsWith "data:image/" url = false →
  match networkDownload chrome url filename world with
  | (Normal _, world') => downloadImage chrome url filename world = (Normal tt, world')
  | (Throw error, _) =>
      ∀ e world', downloadImage chrome url filename world = (Throw e, world') → e = error
  end.
Proof.
  intros Hdata. rewrite (downloadImage_network _ _ _ Hdata).
  destruct (networkDownload chrome url filename world) as [[[]|error] world1].
  - reflexivity.
  - intros e world'.
    destruct (fallbacks chrome url filename error world1) as [[[]|e1] world2] eqn:Hf.
    + intros H. inversion H.
    + intros H. inversion H. subst.
      exact (fallbacks_error _ _ _ _ _ _ Hf).
Qed.

End DownloadFacts.

Section DownloadExamples.
Import JsString Classifier Network Background Downloads.

(** A browser that refuses every download: the error is the one of the first
    attempt. *)
Lemma downloadImage_first_error_witness :
  startsWith "data:image/" "https://site.com/a.png" = false ∧
  ∀ e world',
    downloadImage refusing "https://site.com/a.png" None tt = (Throw e, world') →
    e = Error "refused".
Proof.
  split; [reflexivity|].
  exact (downloadImage_first_error refusing "https://site.com/a.png" None tt eq_refl).
Defined.

Lemma cachedMimeTypes_extension mimeType :
  mimeType ∈ cachedMimeTypes →
  toLowerCase (replaceFirst "+xml" EmptyString mimeType) ∈ validExtensions.
Proof.
  unfold cachedMimeTypes, validExtensions. intros H.
  repeat (apply elem_of_cons in H as [->|H];
          [vm_compute;
           repeat first [apply list_elem_of_here | apply list_elem_of_further]|]).
  apply elem_of_nil in H. destruct H.
Qed.

(** ** X25 *)

(** X25. The extension of the name given to a cached copy is, up to case,
    one of the ten valid extensions: the subtype of the cached data URI with
    [jpeg] turned into [jpg] and [svg+xml] into [svg], the extension of the
    URL as it is written when its lower case is valid, and [png] otherwise. *)
Theorem cachedExtension_valid (cacheData url : string) :
  toLowerCase (cachedExtension cacheData url) ∈ validExtensions.
Proof.
  assert (Hpng : toLowerCase "png" ∈ validExtensions)
    by (vm_compute; repeat first [apply list_elem_of_here | apply list_elem_of_further]).
  unfold cachedExtension. destruct (startsWith "data:image/" cacheData).
  - destruct (matchDataImage cacheData) as [mimeType|]; [|exact Hpng].
    destruct (String.eqb mimeType "jpeg").
    + vm_compute. repeat first [apply list_elem_of_here | apply list_elem_of_further].
    + destruct (arrayIncludes cachedMimeTypes mimeType) eqn:Hin; [|exact Hpng].
      apply cachedMimeTypes_extension, arrayIncludes_elem, Hin.
  - destruct (getExtensionFromUrl url) as [[|c urlExtension]|]; try exact Hpng.
    destruct (arrayIncludes validExtensions (toLowerCase (String c urlExtension))) eqn:Hin;
      [|exact Hpng].
    apply arrayIncludes_elem, Hin.
Qed.

End DownloadExamples.

Section ZipFacts.
Import JsString Downloads.
Context {World : Type} (chrome : Chrome World).

Lemma zipLoop_counts (images : list ImageRecord) : ∀ (i : nat) (counts : Z * Z) (world : World),
  ∃ s e world',
    zipLoop chrome i images counts world = (Normal (s, e), world') ∧
    s + e = counts.1 + counts.2 + Z.of_nat (length images) ∧
    counts.1 <= s ∧ counts.2 <= e.
Proof.
  induction images as [|image rest IH]; intros i [s0 e0] world.
  - exists s0, e0, world. simpl. split; [reflexivity|lia].
  - cbn [zipLoop].
    destruct (downloadImage chrome (src image) _ world) as [[[]|error] world1].
    + destruct (IH (S i) (s0 + 1, e0)
                  (match rest with [] => world1 | _ :: _ => timeout chrome world1 end))
        as (s & e & world' & Hloop & Hsum & Hs & He).
      exists s, e, world'. cbn [fst snd] in *. split; [exact Hloop|].
      cbn [length]. lia.
    + destruct (IH (S i) (s0, e0 + 1)
                  (match rest with [] => world1 | _ :: _ => timeout chrome world1 end))
        as (s & e & world' & Hloop & Hsum & Hs & He).
      exists s, e, world'. cbn [fst snd] in *. split; [exact Hloop|].
      cbn [length]. lia.
Qed.

(** ** X26 *)

(** X26. [downloadAllImagesAsZip] never rejects, whatever the browser does
    with each download: it fulfils with [success: true] and two counts that
    are not negative and add up to the number of records. *)
Theorem downloadAllImagesAsZip_counts (images : list ImageRecord) (world : World) :
  ∃ result world',
    downloadAllImagesAsZip chrome images world = (Normal result, world') ∧
    success result = true ∧
    0 <= successCount result ∧ 0 <= errorCount result ∧
    successCount result + errorCount result = Z.of_nat (length images).
Proof.
  destruct (zipLoop_counts images 0%nat (0, 0) world) as (s & e & world' & Hloop & Hsum & Hs & He).
  exists {| success := true; successCount := s; errorCount := e |}, world'.
  unfold downloadAllImagesAsZip, tryAsync, await. rewrite Hloop.
  cbn [fst snd success successCount errorCount] in *. repeat split; [lia..].
Qed.

End ZipFacts.

(** ** The sidebar *)

Section SidebarFacts.
Import Sidebar.

(** ** X27 *)

(** X27. The two places of the sidebar that apply the type filter agree:
    the records [downloadAllImages] selects are those whose items
    [filterImages] displays, in the same order, for every value of the
    filter and every type; with the filter [jpg] these are the records of
    type [jpg] or [jpeg]. *)
Theorem download_all_selects_shown (filterType : string) (images : list ImageRecord) :
  List.filter (selected filterType) images =
    List.filter (fun image => shown filterType (type image)) images ∧
  (filterType = "jpg" →
   ∀ image, selected filterType image = true ↔ type image = "jpg" ∨ type image = "jpeg").
Proof.
  assert (Hagree : ∀ image, selected filterType image = shown filterType (type image)).
  { intros image. unfold selected, shown.
    destruct (String.eqb_spec filterType "all") as [->|Hall]; [reflexivity|].
    destruct (String.eqb_spec filterType "jpg") as [->|Hjpg]; cbn [orb andb].
    - destruct (String.eqb (type image) "jpg"), (String.eqb (type image) "jpeg");
        reflexivity.
    - reflexivity. }
  split.
  - induction images as [|image images IH]; [reflexivity|].
    cbn [List.filter]. rewrite Hagree, IH. reflexivity.
  - intros -> image. unfold selected. cbn.
    rewrite orb_true_iff, !String.eqb_eq. reflexivity.
Qed.

End SidebarFacts.

(** ** SVG lengths *)

Section SvgLengthFacts.
Import JsString Svg SvgUrl.

Lemma positive_not_NaN (n : number) : isPositive n = true → isNaN n = false.
Proof. destruct n; simpl; congruence. Qed.

(** ** X28 *)

(** X28. [parseSvgLength] answers 0 or a positive number, never [NaN] and
    never a negative number.  The first run of digits and dots of the length
    decides whenever it parses to a positive number, whatever unit follows
    it: the result is that number, so a percentage is read as a number of
    pixels.  A length without a digit and without a dot gives 0. *)
Theorem parseSvgLength_range (host : Host) (length : string) :
  (parseSvgLength host length = Fin 0%Q ∨
   isPositive (parseSvgLength host length) = true) ∧
  (∀ run, matchNumeric length = Some run →
          isPositive (parseFloat host run) = true →
          parseSvgLength host length = parseFloat host run) ∧
  (matchNumeric length = None → parseSvgLength host length = Fin 0%Q).
Proof.
  unfold parseSvgLength. split; [|split].
  - destruct (String.eqb length EmptyString); [left; reflexivity|].
    destruct (matchNumeric length) as [run|].
    + destruct (isNaN (parseFloat host run)); cbn [negb andb].
      * destruct (String.eqb length "100%"); [right; reflexivity|].
        destruct (String.eqb length "50%"); [right|left]; reflexivity.
      * destruct (isPositive (parseFloat host run)) eqn:Hpos; [right; exact Hpos|].
        destruct (String.eqb length "100%"); [right; reflexivity|].
        destruct (String.eqb length "50%"); [right|left]; reflexivity.
    + destruct (String.eqb length "100%"); [right; reflexivity|].
      destruct (String.eqb length "50%"); [right|left]; reflexivity.
  - intros run Hrun Hpos.
    destruct (String.eqb_spec length EmptyString) as [->|_]; [discriminate Hrun|].
    rewrite Hrun, (positive_not_NaN _ Hpos), Hpos. reflexivity.
  - intros Hnone.
    destruct (String.eqb length EmptyString); [reflexivity|]. rewrite Hnone.
    destruct (String.eqb_spec length "100%") as [->|_]; [discriminate Hnone|].
    destruct (String.eqb_spec length "50%") as [->|_]; [discriminate Hnone|].
    reflexivity.
Qed.

End SvgLengthFacts.

(** ** File names *)

Section FilenameFacts.
Import JsString Background Downloads.
Context {World : Type} (chrome : Chrome World).

Lemma last_Forall {A} (P : A → Prop) (l : list A) (d : A) :
  Forall P l → P d → P (List.last l d).
Proof.
  induction 1 as [|x l Hx Hl IH]; intros Hd; [exact Hd|].
  destruct l as [|y l]; [exact Hx|]. exact (IH Hd).
Qed.

(** ** X29 *)

(** X29. [getFilenameFromUrl] throws only when [new URL(url)] does, asks
    nothing else of the browser, and never returns an empty name.  When the
    path of the URL does not end with a slash, the name is the text after its
    last slash, which holds no slash itself; otherwise a name is made of
    [image_], the time and an extension. *)
Theorem getFilenameFromUrl_name (url : string) (world : World) :
  match pathname chrome url with
  | Throw e => getFilenameFromUrl chrome url world = (Throw e, world)
  | Normal path =>
      ∃ name,
        getFilenameFromUrl chrome url world = (Normal name, world) ∧
        name ≠ EmptyString ∧
        (List.last (split "/" path) EmptyString ≠ EmptyString →
         name = List.last (split "/" path) EmptyString ∧ free "/" name) ∧
        (List.last (split "/" path) EmptyString = EmptyString →
         startsWith "image_" name = true)
  end.
Proof.
  unfold getFilenameFromUrl.
  destruct (pathname chrome url) as [path|e]; [|reflexivity].
  assert (Hfree : free "/" (List.last (split "/" path) EmptyString)).
  { apply last_Forall; [|apply free_empty].
    apply split_pieces_free. left. reflexivity. }
  destruct (List.last (split "/" path) EmptyString) as [|c filename].
  - eexists. split; [reflexivity|]. unfold stamped. rewrite !append_cons.
    split; [discriminate|]. split; [intros H; destruct H; reflexivity|].
    intros _. reflexivity.
  - eexists. split; [reflexivity|]. split; [discriminate|].
    split; [auto|]. discriminate.
Qed.

End FilenameFacts.
